(** * kas.repos: the repository synchronisation engine of kas

    A shallow embedding of [kas/repos.py] (classes [Repo], [RepoImpl],
    [GitRepo], [MercurialRepo]) and the properties of its factory and
    of its fetch, checkout and patch application algorithms.

    Python strings are sequences of code points; the embedding keeps
    the code points below 256, one [ascii] each.  The collaborators
    that live outside [repos.py] (the command runner of [kas.libkas],
    the file system, the process environment) are the fields of the
    class [System]; every algorithm is written against that interface
    and records what it asks of it in a trace of events. *)

From stdpp Require Import base gmap strings list.
From Stdlib Require Import ZArith Ascii String DecimalString Lia.

Open Scope string_scope.
Open Scope Z_scope.
Open Scope list_scope.

(** Let [simpl] compute string concatenation. *)
Arguments String.append : simpl nomatch.

(** ** Python string methods *)

Module PyStr.

Definition LF : ascii := "010"%char.

(** [str.isspace] on one code point below 256. *)
Definition isspace (c : ascii) : bool :=
  let n := N_of_ascii c in
  ((9 <=? n) && (n <=? 13) || (28 <=? n) && (n <=? 32)
   || (n =? 133) || (n =? 160))%N.

(** [c in chars] *)
Fixpoint mem (chars : string) (c : ascii) : bool :=
  match chars with
  | EmptyString => false
  | String d chars' => Ascii.eqb c d || mem chars' c
  end.

(** [s.rstrip(...)]: drop the longest suffix made of characters
    satisfying [p]. *)
Fixpoint rstrip_by (p : ascii -> bool) (s : string) : string :=
  match s with
  | EmptyString => EmptyString
  | String c s' =>
      match rstrip_by p s' with
      | EmptyString => if p c then EmptyString else String c EmptyString
      | r => String c r
      end
  end.

(** [s.rstrip()] *)
Definition rstrip (s : string) : string := rstrip_by isspace s.

(** [s.lstrip()] *)
Fixpoint lstrip (s : string) : string :=
  match s with
  | EmptyString => EmptyString
  | String c s' => if isspace c then lstrip s' else s
  end.

(** [s.strip()] *)
Definition strip (s : string) : string := rstrip (lstrip s).
(** [s.rstrip(chars)] *)
Definition rstrip_chars (chars s : string) : string := rstrip_by (mem chars) s.

(** [s.startswith(p)] *)
Definition startswith (s p : string) : bool := String.prefix p s.

(** [s.endswith(sep)] for a one character [sep]. *)
Fixpoint endswith_char (s : string) (c : ascii) : bool :=
  match s with
  | EmptyString => false
  | String d EmptyString => Ascii.eqb d c
  | String _ s' => endswith_char s' c
  end.

(** [s.split(sep)[0]] for a non-empty [sep]: the text before the
    first occurrence of [sep], all of [s] when there is none. *)
Fixpoint split0 (sep s : string) : string :=
  match s with
  | EmptyString => EmptyString
  | String c s' =>
      if String.prefix sep s then EmptyString else String c (split0 sep s')
  end.

(** [s.replace(a, b)] for one character [a] and [b]. *)
Fixpoint replace (a b : ascii) (s : string) : string :=
  match s with
  | EmptyString => EmptyString
  | String c s' => String (if Ascii.eqb c a then b else c) (replace a b s')
  end.

Definition lower_char (c : ascii) : ascii :=
  let n := N_of_ascii c in
  if ((65 <=? n) && (n <=? 90)
      || (192 <=? n) && (n <=? 222) && negb (n =? 215))%N
  then ascii_of_N (n + 32) else c.

(** [s.lower()] *)
Fixpoint lower (s : string) : string :=
  match s with
  | EmptyString => EmptyString
  | String c s' => String (lower_char c) (lower s')
  end.

(** [s[n:]] *)
Fixpoint drop (n : nat) (s : string) : string :=
  match n, s with
  | O, _ => s
  | S n', String _ s' => drop n' s'
  | S _, EmptyString => EmptyString
  end.

(** The lines a text file yields when iterated: each keeps its
    line feed, the last one may lack it. *)
Fixpoint iter_lines (s : string) : list string :=
  match s with
  | EmptyString => []
  | String c s' =>
      if Ascii.eqb c LF then String c EmptyString :: iter_lines s'
      else match iter_lines s' with
           | [] => [String c EmptyString]
           | l :: ls => String c l :: ls
           end
  end.

(** A line as the iteration yields it: not empty, and with no
    line feed before its last character. *)
Fixpoint is_line (l : string) : bool :=
  match l with
  | EmptyString => false
  | String c EmptyString => true
  | String c l' => negb (Ascii.eqb c LF) && is_line l'
  end.

(** [str(n)] for an integer. *)
Definition of_Z (z : Z) : string := NilZero.string_of_int (Z.to_int z).

(** [x in l] for a list of strings. *)
Definition inb (x : string) (l : list string) : bool :=
  existsb (String.eqb x) l.

End PyStr.

(** ** [os.path] (posixpath) *)

Module OsPath.

Definition sep : string := "/".

(** [os.path.join(a, b)] *)
Definition join (a b : string) : string :=
  if PyStr.startswith b sep then b
  else if (String.eqb a "" || PyStr.endswith_char a "/")%bool then a +:+ b
  else a +:+ sep +:+ b.

(** [os.path.isabs(p)] *)
Definition isabs (p : string) : bool := PyStr.startswith p sep.

(** The text up to and including the last ["/"]. *)
Fixpoint head_slash (p : string) : string :=
  match p with
  | EmptyString => EmptyString
  | String c p' =>
      match head_slash p' with
      | EmptyString => if Ascii.eqb c "/" then String c EmptyString else EmptyString
      | h => String c h
      end
  end.

Fixpoint all_slash (p : string) : bool :=
  match p with
  | EmptyString => true
  | String c p' => Ascii.eqb c "/" && all_slash p'
  end.

(** [os.path.dirname(p)] *)
Definition dirname (p : string) : string :=
  let head := head_slash p in
  if all_slash head then head else PyStr.rstrip_chars "/" head.

End OsPath.

(** ** Data model *)

(** The two subclasses of [RepoImpl]. *)
Inductive vcs : Type := Git | Mercurial.

(** One entry of [Repo._patches]: the dictionary with the keys
    ['id'], ['repo'] and ['path'] that the factory builds. *)
Record Patch : Type := mkPatch {
  patch_id : string;
  patch_repo : string;
  patch_path : string
}.

(** The attributes set by [Repo.__init__]; [kind] is the class of the
    instance. *)
Record Repo : Type := mkRepo {
  kind : vcs;
  name : string;
  url : string;
  path : string;
  refspec : option string;
  _layers : list string;
  _patches : list Patch;
  operations_disabled : bool
}.

(** What [get_context()] gives: the fields [repos.py] reads. *)
Record Context : Type := mkContext {
  kas_repo_ref_dir : option string;
  kas_work_dir : string;
  update : bool;
  force_checkout : bool;
  repo_dict : gmap string Repo
}.

(** The exceptions the module raises or lets through. *)
Inductive exn : Type :=
| SystemExit (code : Z)
| FileNotFoundError (p : string)
| NotImplementedError (msg : string)
| AttributeError
| TypeError
| OSError.

Inductive result (A : Type) : Type :=
| Ok (a : A)
| Err (e : exn).
Arguments Ok {A} a.
Arguments Err {A} e.

(** Truth value of an optional string: [None] and [''] are false. *)
Definition truthy (o : option string) : bool :=
  match o with
  | Some s => negb (String.eqb s "")
  | None => false
  end.

(** ** Command builders of the two backends *)

(** [Repo.effective_url] reads [KAS_PREMIRRORS] from the process
    environment and rewrites the url with [re]; both are outside the
    module, so the rewriting is a method of this interface. *)
Class Environ : Type := { effective_url : Repo -> string }.

(** [self.refspec] where the code calls a string method on it. *)
Definition refspec_str (r : Repo) : result string :=
  match refspec r with
  | Some rs => Ok rs
  | None => Err AttributeError
  end.

Definition rmap {A B} (f : A -> B) (x : result A) : result B :=
  match x with
  | Ok a => Ok (f a)
  | Err e => Err e
  end.

Module GitRepo.

Definition remove_ref_prefix (refspec : string) : string :=
  let ref_prefix := "refs/" in
  if PyStr.startswith refspec ref_prefix
  then PyStr.drop (String.length ref_prefix) refspec
  else refspec.

Definition add_cmd (r : Repo) : list string := ["git"; "add"; "-A"].

Definition clone_cmd {environ : Environ} (r : Repo) (srcdir : option string) (createref : bool)
  : result (list string) :=
  let cmd := ["git"; "clone"; "-q"] in
  if createref then
    match srcdir with
    | Some d => Ok (cmd ++ [effective_url r; "--bare"; d])
    | None => Err TypeError
    end
  else if truthy srcdir then
    match srcdir with
    | Some d => Ok (cmd ++ [d; "--reference"; d; path r])
    | None => Err TypeError
    end
  else Ok (cmd ++ [effective_url r; path r]).

Definition commit_cmd (r : Repo) : list string :=
  ["git"; "commit"; "-a"; "--author"; "kas <kas@example.com>"; "-m"; "msg"].

Definition contains_refspec_cmd (r : Repo) : result (list string) :=
  rmap (fun rs => ["git"; "cat-file"; "-t"; remove_ref_prefix rs])
       (refspec_str r).

Definition fetch_cmd (r : Repo) : result (list string) :=
  rmap (fun rs =>
          let cmd := ["git"; "fetch"; "-q"] in
          if PyStr.startswith rs "refs/"
          then cmd ++ ["origin";
                       "+" +:+ rs +:+ ":refs/remotes/origin/"
                           +:+ remove_ref_prefix rs]
          else cmd)
       (refspec_str r).

Definition is_dirty_cmd (r : Repo) : list string := ["git"; "status"; "-s"].

Definition resolve_branch_cmd (r : Repo) : result (list string) :=
  rmap (fun rs => ["git"; "rev-parse"; "--verify"; "-q";
                   "origin/" +:+ remove_ref_prefix rs])
       (refspec_str r).

Definition checkout_cmd (ctx : Context) (r : Repo) (desired_ref : string) (branch : bool)
  : result (list string) :=
  let cmd := ["git"; "checkout"; "-q"; remove_ref_prefix desired_ref] in
  rmap (fun cmd => if force_checkout ctx then cmd ++ ["--force"] else cmd)
       (if branch
        then rmap (fun rs => cmd ++ ["-B"; remove_ref_prefix rs])
                  (refspec_str r)
        else Ok cmd).

Definition prepare_patches_cmd (r : Repo) : result (list string) :=
  rmap (fun rs => ["git"; "checkout"; "-q"; "-B";
                   "patched-" +:+ remove_ref_prefix rs])
       (refspec_str r).

Definition apply_patches_file_cmd (r : Repo) (p : string) : list string :=
  ["git"; "apply"; "--whitespace=nowarn"; p].

Definition set_remote_url_cmd {environ : Environ} (r : Repo) : result (list string) :=
  Ok ["git"; "remote"; "set-url"; "origin"; effective_url r].

End GitRepo.

Module MercurialRepo.

Definition add_cmd (r : Repo) : list string := ["hg"; "add"].

Definition clone_cmd {environ : Environ} (r : Repo) (srcdir : option string) (createref : bool)
  : result (list string) :=
  if createref then Ok ["true"]
  else Ok ["hg"; "clone"; effective_url r; path r].

Definition commit_cmd (r : Repo) : list string :=
  ["hg"; "commit"; "--user"; "kas <kas@example.com>"; "-m"; "msg"].

(** With no refspec the argument vector would hold [None]. *)
Definition contains_refspec_cmd (r : Repo) : result (list string) :=
  match refspec r with
  | Some rs => Ok ["hg"; "log"; "-r"; rs]
  | None => Err TypeError
  end.

Definition fetch_cmd (r : Repo) : result (list string) := Ok ["hg"; "pull"].

Definition is_dirty_cmd (r : Repo) : list string := ["hg"; "diff"].

Definition resolve_branch_cmd (r : Repo) : result (list string) :=
  Ok ["false"].

Definition checkout_cmd (ctx : Context) (r : Repo) (desired_ref : string) (branch : bool)
  : result (list string) :=
  let cmd := ["hg"; "checkout"; desired_ref] in
  Ok (if force_checkout ctx then cmd ++ ["--clean"] else cmd).

(** [str.format] prints an absent refspec as ['None']. *)
Definition prepare_patches_cmd (r : Repo) : result (list string) :=
  Ok ["hg"; "branch"; "-f";
      "patched-" +:+ match refspec r with Some rs => rs | None => "None" end].

Definition apply_patches_file_cmd (r : Repo) (p : string) : list string :=
  ["hg"; "import"; "--no-commit"; p].

Definition set_remote_url_cmd {environ : Environ} (r : Repo) : result (list string) :=
  Err (NotImplementedError "").

End MercurialRepo.

(** Method dispatch on the class of [self]. *)
Definition add_cmd (r : Repo) : list string :=
  match kind r with
  | Git => GitRepo.add_cmd r
  | Mercurial => MercurialRepo.add_cmd r
  end.
Definition clone_cmd {environ : Environ} (r : Repo) (srcdir : option string) (createref : bool) :=
  match kind r with
  | Git => GitRepo.clone_cmd r srcdir createref
  | Mercurial => MercurialRepo.clone_cmd r srcdir createref
  end.
Definition commit_cmd (r : Repo) : list string :=
  match kind r with
  | Git => GitRepo.commit_cmd r
  | Mercurial => MercurialRepo.commit_cmd r
  end.
Definition contains_refspec_cmd (r : Repo) :=
  match kind r with
  | Git => GitRepo.contains_refspec_cmd r
  | Mercurial => MercurialRepo.contains_refspec_cmd r
  end.
Definition fetch_cmd (r : Repo) :=
  match kind r with
  | Git => GitRepo.fetch_cmd r
  | Mercurial => MercurialRepo.fetch_cmd r
  end.
Definition is_dirty_cmd (r : Repo) : list string :=
  match kind r with
  | Git => GitRepo.is_dirty_cmd r
  | Mercurial => MercurialRepo.is_dirty_cmd r
  end.
Definition resolve_branch_cmd (r : Repo) :=
  match kind r with
  | Git => GitRepo.resolve_branch_cmd r
  | Mercurial => MercurialRepo.resolve_branch_cmd r
  end.
Definition checkout_cmd (ctx : Context) (r : Repo) (desired_ref : string) (branch : bool) :=
  match kind r with
  | Git => GitRepo.checkout_cmd ctx r desired_ref branch
  | Mercurial => MercurialRepo.checkout_cmd ctx r desired_ref branch
  end.
Definition prepare_patches_cmd (r : Repo) :=
  match kind r with
  | Git => GitRepo.prepare_patches_cmd r
  | Mercurial => MercurialRepo.prepare_patches_cmd r
  end.
Definition apply_patches_file_cmd (r : Repo) (p : string) : list string :=
  match kind r with
  | Git => GitRepo.apply_patches_file_cmd r p
  | Mercurial => MercurialRepo.apply_patches_file_cmd r p
  end.
Definition set_remote_url_cmd {environ : Environ} (r : Repo) :=
  match kind r with
  | Git => GitRepo.set_remote_url_cmd r
  | Mercurial => MercurialRepo.set_remote_url_cmd r
  end.

(** ** The collaborators and the trace *)

(** The interface of the world outside [repos.py]:
    [exec argv cwd fail liveupdate] is the command runner
    ([libkas.run_cmd_async], and [libkas.run_cmd] on top of it), which
    hands back the exit code and the captured text; the other fields
    are the [os], [os.path], [tempfile] and [urllib.parse] calls the
    module makes.  [rename] gives [None] when [os.rename] raises
    [OSError]. *)
Class System (Env : Type) : Type := {
  exec : list string -> string -> bool -> bool -> Env -> Z * string * Env;
  path_exists : string -> Env -> bool;
  path_isfile : string -> Env -> bool;
  path_isdir : string -> Env -> bool;
  read_text : string -> Env -> string;
  makedirs : string -> Env -> Env;
  mkdtemp : string -> string -> Env -> string * Env;
  rename : string -> string -> Env -> option Env;
  rmtree : string -> Env -> Env;
  version_lt_38 : bool;
  urlparse : string -> string * string
}.

(** The call sites of the command runner. *)
Inductive op : Type :=
| OpCloneRef | OpClone | OpSetRemoteUrl | OpContainsRefspec | OpFetch
| OpIsDirty | OpResolveBranch | OpCheckout
| OpPreparePatches | OpApply (file : string) (pid : string) | OpAdd | OpCommit
| OpRootGit | OpRootHg.

Inductive level : Type := Debug | Info | Warning | Error.

(** What an algorithm did, in the order it did it. *)
Inductive event : Type :=
| EvRun (o : op) (argv : list string) (cwd : string) (retc : Z) (out : string)
| EvMakedirs (p : string)
| EvMkdtemp (p : string)
| EvRename (src dst : string) (ok : bool)
| EvCleanup (p : string)
| EvLog (l : level) (fmt : string).

(** How a block of statements ends: it falls through with a value,
    executes [return], or raises. *)
Inductive ctrl (R A : Type) : Type :=
| Next (a : A)
| Return (r : R)
| Raise (e : exn).
Arguments Next {R A} a.
Arguments Return {R A} r.
Arguments Raise {R A} e.

Section Monad.

Context {Env : Type} {sys : System Env}.

(** A block of statements of a function whose [return] carries an
    [R]: from the world before to the way the block ends, what it
    did, and the world after. *)
Definition Py (R A : Type) : Type := Env -> ctrl R A * list event * Env.

Definition Py_ret {R A} (a : A) : Py R A := fun env => (Next a, [], env).

Definition Py_bind {R A B} (k : A -> Py R B) (m : Py R A) : Py R B :=
  fun env =>
    match m env with
    | (Next a, t1, env1) =>
        match k a env1 with
        | (c, t2, env2) => (c, t1 ++ t2, env2)
        end
    | (Return r, t1, env1) => (Return r, t1, env1)
    | (Raise e, t1, env1) => (Raise e, t1, env1)
    end.

#[global] Instance Py_MRet {R} : MRet (Py R) := @Py_ret R.
#[global] Instance Py_MBind {R} : MBind (Py R) := @Py_bind R.

(** [return r] *)
Definition return_ {R A} (r : R) : Py R A := fun env => (Return r, [], env).

(** [raise e] *)
Definition raise {R A} (e : exn) : Py R A := fun env => (Raise e, [], env).

Definition lift {R A} (x : result A) : Py R A :=
  match x with
  | Ok a => mret a
  | Err e => raise e
  end.

(** A read-only question to the file system. *)
Definition query {R A} (q : Env -> A) : Py R A := fun env => (Next (q env), [], env).

Definition logging {R} (l : level) (fmt : string) : Py R unit :=
  fun env => (Next tt, [EvLog l fmt], env).

(** [run_cmd_async(argv, cwd=cwd, fail=fail, liveupdate=liveupdate)],
    and [run_cmd] with the same arguments. *)
Definition run_cmd_async {R} (o : op) (argv : list string) (cwd : string)
    (fail liveupdate : bool) : Py R (Z * string) :=
  fun env =>
    match exec argv cwd fail liveupdate env with
    | (retc, out, env') => (Next (retc, out), [EvRun o argv cwd retc out], env')
    end.

Definition run_cmd {R} := @run_cmd_async R.

(** [os.makedirs(p, exist_ok=True)] *)
Definition os_makedirs {R} (p : string) : Py R unit :=
  fun env => (Next tt, [EvMakedirs p], makedirs p env).

(** [os.rename(src, dst)] *)
Definition os_rename {R} (src dst : string) : Py R unit :=
  fun env =>
    match rename src dst env with
    | Some env' => (Next tt, [EvRename src dst true], env')
    | None => (Raise OSError, [EvRename src dst false], env)
    end.

(** [try: body except OSError: handler] and the like: [catches]
    tells which exceptions the clause takes. *)
Definition try_except {R A} (body : Py R A) (catches : exn -> bool)
    (handler : Py R A) : Py R A :=
  fun env =>
    match body env with
    | (Raise e, t1, env1) =>
        if catches e then
          match handler env1 with
          | (c, t2, env2) => (c, t1 ++ t2, env2)
          end
        else (Raise e, t1, env1)
    | other => other
    end.

(** [with TemporaryDirectory(prefix=prefix, dir=dir) as tmpdir: body]:
    the directory is removed however the body ends. *)
Definition with_TemporaryDirectory {R A} (prefix dir : string)
    (body : string -> Py R A) : Py R A :=
  fun env =>
    match mkdtemp prefix dir env with
    | (tmpdir, env1) =>
        match body tmpdir env1 with
        | (c, t, env2) =>
            (c, EvMkdtemp tmpdir :: t ++ [EvCleanup tmpdir], rmtree tmpdir env2)
        end
    end.

Definition is_OSError (e : exn) : bool :=
  match e with OSError => true | _ => false end.
Definition is_NotImplementedError (e : exn) : bool :=
  match e with NotImplementedError _ => true | _ => false end.

End Monad.

Arguments Py Env R A : clear implicits.

(** ** [Repo]: computed attributes *)

(** [Repo.__getattr__('layers')] *)
Definition layers (r : Repo) : list string :=
  map (fun layer => PyStr.rstrip_chars (OsPath.sep +:+ ".") (OsPath.join (path r) layer))
      (_layers r).

(** [Repo.__getattr__('qualified_name')] *)
Definition qualified_name {Env : Type} {sys : System Env} (r : Repo) : string :=
  match urlparse (url r) with
  | (netloc, upath) =>
      PyStr.replace "*" "."
        (PyStr.replace "/" "."
           (PyStr.replace ":" "."
              (PyStr.replace "@" "." (netloc +:+ upath))))
  end.

(** ** [RepoImpl]: fetch, checkout and patch application *)

Section RepoImpl.

Context {Env : Type} {sys : System Env} {environ : Environ}.
Variable ctx : Context.

(** [sdir] of [fetch_async]. *)
Definition ref_sdir (r : Repo) : option string :=
  match kas_repo_ref_dir ctx with
  | Some refdir =>
      if truthy (Some refdir) then Some (OsPath.join refdir (qualified_name r))
      else None
  | None => None
  end.

(** [fetch_async], the block under [# fetch to refdir]. *)
Definition fetch_refdir (r : Repo) : Py Env Z unit :=
  match kas_repo_ref_dir ctx, ref_sdir r with
  | Some refdir, Some sdir =>
      present ← query (path_exists sdir);
      if negb present then
        os_makedirs refdir;;
        with_TemporaryDirectory (qualified_name r +:+ ".") refdir (fun tmpdir =>
          cmd ← lift (clone_cmd r (Some tmpdir) true);
          '(retc, _) ← run_cmd_async OpCloneRef cmd (kas_work_dir ctx) true true;
          if negb (retc =? 0) then return_ retc
          else
            logging Debug "Created repo ref for %s";;
            try_except
              (os_rename tmpdir sdir;;
               if version_lt_38 then os_makedirs tmpdir else mret tt)
              is_OSError
              (logging Debug "repo %s already cloned by other instance"))
      else mret tt
  | _, _ => mret tt
  end.

(** [fetch_async], the block under [if not os.path.exists(self.path)]. *)
Definition fetch_clone (r : Repo) : Py Env Z unit :=
  present ← query (path_exists (path r));
  if negb present then
    os_makedirs (OsPath.dirname (path r));;
    cmd ← lift (clone_cmd r (ref_sdir r) false);
    '(retc, _) ← run_cmd_async OpClone cmd (kas_work_dir ctx) true true;
    if retc =? 0 then logging Info "Repository %s cloned" else mret tt
  else mret tt.

(** [fetch_async], the [try] block that sets the remote url. *)
Definition fetch_set_remote_url (r : Repo) : Py Env Z unit :=
  try_except
    (cmd ← lift (set_remote_url_cmd r);
     '(retc, output) ← run_cmd_async OpSetRemoteUrl cmd (path r) true false;
     if negb (retc =? 0) then return_ retc else mret tt)
    is_NotImplementedError
    (logging Warning
       "Repo implementation does not support changing the remote url.").

(** [fetch_async], from [if not get_context().update] to the end. *)
Definition fetch_refspec (r : Repo) : Py Env Z unit :=
  (if negb (update ctx) then
     cmd ← lift (contains_refspec_cmd r);
     '(retc, output) ← run_cmd_async OpContainsRefspec cmd (path r) false false;
     if retc =? 0 then
       logging Info "Repository %s already contains %s as %s";;
       return_ retc
     else mret tt
   else mret tt);;
  cmd ← lift (fetch_cmd r);
  '(retc, output) ← run_cmd_async OpFetch cmd (path r) false true;
  (if negb (retc =? 0)
   then logging Warning "Could not update repository %s: %s"
   else logging Info "Repository %s updated");;
  return_ 0.

(** [RepoImpl.fetch_async] *)
Definition fetch_async (r : Repo) : Py Env Z unit :=
  if operations_disabled r then return_ 0
  else
    fetch_refdir r;;
    fetch_clone r;;
    fetch_set_remote_url r;;
    match refspec r with
    | None => return_ 0
    | Some _ => fetch_refspec r
    end.

(** [RepoImpl.checkout] *)
Definition checkout (r : Repo) : Py Env unit unit :=
  match operations_disabled r, refspec r with
  | false, Some rs =>
      (if negb (force_checkout ctx) then
         '(_, output) ← run_cmd OpIsDirty (is_dirty_cmd r) (path r) false true;
         if negb (String.eqb output "") then
           logging Warning "Repo %s is dirty - no checkout";;
           return_ tt
         else mret tt
       else mret tt);;
      cmd ← lift (resolve_branch_cmd r);
      '(_, output) ← run_cmd OpResolveBranch cmd (path r) false true;
      let '(desired_ref, branch) :=
        if negb (String.eqb output "") then (PyStr.strip output, true)
        else (rs, false) in
      cmd ← lift (checkout_cmd ctx r desired_ref branch);
      run_cmd OpCheckout cmd (path r) true true;;
      mret tt
  | _, _ => return_ tt
  end.

(** [apply_patches_async], the loop over the lines of a series
    file; [ln] is the number of the last line read. *)
Fixpoint resolve_series (r : Repo) (patch : Patch) (dir : string)
    (lines : list string) (ln : Z) (my_patches : list (string * string))
  : Py Env Z (list (string * string)) :=
  match lines with
  | [] => mret my_patches
  | line :: rest =>
      let ln := ln + 1 in
      if (String.eqb (PyStr.rstrip_chars (String PyStr.LF "") line) ""
          || PyStr.startswith line "#")%bool
      then resolve_series r patch dir rest ln my_patches
      else
        let pn := PyStr.rstrip (PyStr.split0 " #" line) in
        if String.eqb pn "" then
          logging Error
            "Could not parse patch file name from a 'series' file. (file: %s, line: %d, repo: %s, patch entry: %s)";;
          return_ 1
        else
          let p := OsPath.join dir pn in
          isf ← query (path_isfile p);
          if (isf : bool)
          then resolve_series r patch dir rest ln (my_patches ++ [(p, patch_id patch)])
          else raise (FileNotFoundError p)
  end.

(** [apply_patches_async], the loop [for patch in self._patches]. *)
Fixpoint resolve_patches (r : Repo) (patches : list Patch)
    (my_patches : list (string * string)) : Py Env Z (list (string * string)) :=
  match patches with
  | [] => mret my_patches
  | patch :: rest =>
      match repo_dict ctx !! patch_repo patch with
      | None =>
          logging Error
            "Could not find referenced repo. (missing repo: %s, repo: %s, patch entry: %s)";;
          return_ 1
      | Some other_repo =>
          let pth := OsPath.join (path other_repo) (patch_path patch) in
          isf ← query (path_isfile pth);
          if (isf : bool) then resolve_patches r rest (my_patches ++ [(pth, patch_id patch)])
          else
            isd ← query (path_isdir pth);
            iss ← (if (isd : bool) then query (path_isfile (OsPath.join pth "series"))
                   else mret false);
            if (isd && iss)%bool then
              text ← query (read_text (OsPath.join pth "series"));
              my_patches ← resolve_series r patch pth (PyStr.iter_lines text) 0 my_patches;
              resolve_patches r rest my_patches
            else
              logging Error
                "Could not find patch. (patch path: %s, repo: %s, patch entry: %s)";;
              return_ 1
      end
  end.

(** [apply_patches_async], the loop [for (path, patch_id) in my_patches]. *)
Fixpoint apply_resolved (r : Repo) (my_patches : list (string * string))
  : Py Env Z unit :=
  match my_patches with
  | [] => mret tt
  | (pth, pid) :: rest =>
      '(retc, output) ← run_cmd_async (OpApply pth pid)
                          (apply_patches_file_cmd r pth) (path r) true true;
      if negb (retc =? 0) then
        logging Error
          "Could not apply patch. Please fix repos and patches. (patch path: %s, repo: %s, patch entry: %s, vcs output: %s)";;
        return_ 1
      else
        logging Info "Patch applied. (patch path: %s, repo: %s, patch entry: %s)";;
        '(retc, output) ← run_cmd_async OpAdd (add_cmd r) (path r) true true;
        if negb (retc =? 0) then
          logging Error "Could not add patched files. repo: %s, vcs output: %s)";;
          return_ 1
        else
          '(retc, output) ← run_cmd_async OpCommit (commit_cmd r) (path r) true true;
          if negb (retc =? 0) then
            logging Error "Could not commit patch changes. repo: %s, vcs output: %s)";;
            return_ 1
          else apply_resolved r rest
  end.

(** [RepoImpl.apply_patches_async] *)
Definition apply_patches_async (r : Repo) : Py Env Z unit :=
  if (operations_disabled r || bool_decide (_patches r = []))%bool then return_ 0
  else
    cmd ← lift (prepare_patches_cmd r);
    '(retc, _) ← run_cmd_async OpPreparePatches cmd (path r) true true;
    if negb (retc =? 0) then return_ retc
    else
      my_patches ← resolve_patches r (_patches r) [];
      apply_resolved r my_patches;;
      return_ 0.

End RepoImpl.

(** ** [Repo.factory] *)

(** The value a layer is configured with.  [POther] stands for a
    value of any other type (a float, a list, a mapping), given by
    what [str] prints for it. *)
Inductive pyval : Type :=
| PNone
| PBool (b : bool)
| PInt (z : Z)
| PStr (s : string)
| POther (printed : string).

(** [str(v)] *)
Definition py_str (v : pyval) : string :=
  match v with
  | PNone => "None"
  | PBool true => "True"
  | PBool false => "False"
  | PInt z => PyStr.of_Z z
  | PStr s => s
  | POther printed => printed
  end.

(** A dictionary with string keys, in insertion order. *)
Definition dict (V : Type) : Type := list (string * V).

Definition keys {V} (d : dict V) : list string := map fst d.

(** [d[k]], [None] for a key that is not there. *)
Fixpoint dict_get {V} (d : dict V) (k : string) : option V :=
  match d with
  | [] => None
  | (k', v) :: d' => if String.eqb k k' then Some v else dict_get d' k
  end.

(** One value of the ['patches'] mapping that is not empty. *)
Record PatchConfig : Type := mkPatchConfig {
  pc_repo : option string;
  pc_path : string
}.

(** The keys of [repo_config] the factory reads; [None] is a key
    that is absent (or, for ['patches'] values, an empty entry). *)
Record RepoConfig : Type := mkRepoConfig {
  rc_layers : option (dict pyval);
  rc_patches : option (dict (option PatchConfig));
  rc_url : option string;
  rc_name : option string;
  rc_type : option string;
  rc_refspec : option string;
  rc_path : option string
}.

Record RepoDefaults : Type := mkRepoDefaults {
  rd_patches_repo : option string;
  rd_refspec : option string
}.

(** The values that switch a layer off. *)
Definition layer_off : list string :=
  ["disabled"; "excluded"; "n"; "no"; "0"; "false"].

(** The [lambda] of the layer filter; every [x] the filter passes
    in is a key of [laydict]. *)
Definition layer_kept (laydict : dict pyval) (x : string) : bool :=
  match dict_get laydict x with
  | Some v => negb (PyStr.inb (PyStr.lower (py_str v)) layer_off)
  | None => false
  end.

(** [sorted(l)] on strings: by code point. *)
Fixpoint insert_sorted (x : string) (l : list string) : list string :=
  match l with
  | [] => [x]
  | y :: l' => if String.leb x y then x :: l else y :: insert_sorted x l'
  end.

Definition sorted (l : list string) : list string :=
  fold_right insert_sorted [] l.

Section Factory.

Context {Env : Type} {sys : System Env}.
Variable ctx : Context.

(** [Repo.get_root_path] *)
Definition get_root_path {R} (pth : string) (fallback : bool)
  : Py Env R (option string) :=
  '(ret, output) ← run_cmd OpRootGit ["git"; "rev-parse"; "--show-toplevel"]
                     pth false false;
  if ret =? 0 then mret (Some (PyStr.strip output))
  else
    '(ret, output) ← run_cmd OpRootHg ["hg"; "root"] pth false false;
    if ret =? 0 then mret (Some (PyStr.strip output))
    else mret (if fallback then Some pth else None).

(** [factory], the loop [for p in sorted(patches_dict)]. *)
Fixpoint factory_patches (default_patch_repo : option string)
    (patches_dict : dict (option PatchConfig)) (ps : list string)
    (patches : list Patch) : Py Env Repo (list Patch) :=
  match ps with
  | [] => mret patches
  | p :: rest =>
      match dict_get patches_dict p return Py Env Repo (list Patch) with
      | Some (Some entry) =>
          let this_repo :=
            match pc_repo entry with
            | Some x => Some x
            | None => default_patch_repo
            end in
          match this_repo return Py Env Repo (list Patch) with
          | None =>
              logging Error
                "No repo specified for patch entry '%s' and no default repo specified.";;
              raise (SystemExit 1)
          | Some rp =>
              factory_patches default_patch_repo patches_dict rest
                (patches ++ [mkPatch p rp (pc_path entry)])
          end
      | _ => factory_patches default_patch_repo patches_dict rest patches
      end
  end.

(** [Repo.factory] *)
Definition factory (name : string) (repo_config : RepoConfig)
    (repo_defaults : RepoDefaults) (repo_fallback_path : string)
  : Py Env Repo unit :=
  let layers_dict := default [("", PNone)] (rc_layers repo_config) in
  let layers := List.filter (layer_kept layers_dict) (keys layers_dict) in
  let default_patch_repo := rd_patches_repo repo_defaults in
  let patches_dict := default [] (rc_patches repo_config) in
  patches ← factory_patches default_patch_repo patches_dict
              (sorted (keys patches_dict)) [];
  let url := rc_url repo_config in
  let name := default name (rc_name repo_config) in
  let typ := default "git" (rc_type repo_config) in
  let refspec :=
    match rc_refspec repo_config with
    | Some x => Some x
    | None => rd_refspec repo_defaults
    end in
  (if (bool_decide (refspec = None) && negb (bool_decide (url = None)))%bool then
     logging Error
       "No refspec specified for repository '%s'. This is only allowed for local repositories.";;
     raise (SystemExit 1)
   else mret tt);;
  pth ← match rc_path repo_config with
        | None =>
            match url with
            | None =>
                root ← get_root_path repo_fallback_path true;
                logging Info "Using %s as root for repository %s";;
                mret (default repo_fallback_path root)
            | Some _ => mret (OsPath.join (kas_work_dir ctx) name)
            end
        | Some p =>
            if negb (OsPath.isabs p)
            then mret (OsPath.join (kas_work_dir ctx) p)
            else mret p
        end;
  let '(url, disable_operations) :=
    match url with
    | None => (pth, true)
    | Some u => (u, false)
    end in
  if String.eqb typ "git" then
    return_ (mkRepo Git name url pth refspec layers patches disable_operations)
  else if String.eqb typ "hg" then
    return_ (mkRepo Mercurial name url pth refspec layers patches disable_operations)
  else raise (NotImplementedError "Repo type '%s' not supported.").

End Factory.

(** ** A small world to run the algorithms in

    Files with their text, directories, a counter for temporary
    names; what a command answers and does to the world is given by
    a [behaviour]. *)

Module Sim.

Record world : Type := mkWorld {
  files : list (string * string);
  dirs : list string;
  fresh : nat
}.

Definition behaviour : Type := list string -> string -> world -> Z * string * world.

Definition has_file (p : string) (w : world) : bool :=
  existsb (fun f => String.eqb p (fst f)) (files w).

Definition has_dir (p : string) (w : world) : bool :=
  PyStr.inb p (dirs w).

Definition text_of (p : string) (w : world) : string :=
  default "" (dict_get (files w) p).

Definition has_path (p : string) (w : world) : bool :=
  (has_file p w || has_dir p w)%bool.

Definition add_dir (p : string) (w : world) : world :=
  if has_path p w then w else mkWorld (files w) (dirs w ++ [p]) (fresh w).

Definition del_dir (p : string) (w : world) : world :=
  mkWorld (List.filter (fun f => negb (String.eqb (fst f) p)) (files w))
          (List.filter (fun d => negb (String.eqb d p)) (dirs w)) (fresh w).

(** The length of the longest path of the world. *)
Definition longest (w : world) : nat :=
  fold_right (fun p n => Nat.max (String.length p) n) 0%nat
             (dirs w ++ map fst (files w)).

Fixpoint filler (n : nat) : string :=
  match n with
  | O => EmptyString
  | S n' => String "x" (filler n')
  end.

(** A new directory whose name is longer than every path there is. *)
Definition new_tmp (prefix dir : string) (w : world) : string * world :=
  let p := OsPath.join dir (prefix +:+ filler (S (longest w))) in
  (p, mkWorld (files w) (dirs w ++ [p]) (S (fresh w))).

(** The source must exist and the destination must not. *)
Definition move_dir (src dst : string) (w : world) : option world :=
  if (has_path dst w || negb (has_path src w))%bool then None
  else Some (mkWorld
               (map (fun f => if String.eqb (fst f) src then (dst, snd f) else f)
                    (files w))
               (map (fun d => if String.eqb d src then dst else d) (dirs w))
               (fresh w)).

Fixpoint after_scheme (s : string) : option string :=
  match s with
  | EmptyString => None
  | String _ s' =>
      if String.prefix "://" s then Some (PyStr.drop 3 s) else after_scheme s'
  end.

Definition parse_url (u : string) : string * string :=
  match after_scheme u with
  | Some rest =>
      let netloc := PyStr.split0 "/" rest in
      (netloc, PyStr.drop (String.length netloc) rest)
  | None => ("", u)
  end.

Definition system (b : behaviour) : System world := {|
  exec argv cwd _ _ w := b argv cwd w;
  path_exists := has_path;
  path_isfile := has_file;
  path_isdir := has_dir;
  read_text := text_of;
  makedirs := add_dir;
  mkdtemp := new_tmp;
  rename := move_dir;
  rmtree := del_dir;
  version_lt_38 := false;
  urlparse := parse_url
|}.

(** No mirror is configured. *)
Definition environ : Environ := {| effective_url := url |}.

(** Every command answers [retc] and prints nothing. *)
Definition always (retc : Z) : behaviour := fun _ _ w => (retc, "", w).

(** A command answers [retc] when its first two words are [a] and
    [b], and is handed to [other] when not. *)
Definition on (a b : string) (retc : Z) (out : string) (other : behaviour)
  : behaviour :=
  fun argv cwd w =>
    match argv with
    | x :: y :: _ =>
        if (String.eqb x a && String.eqb y b)%bool then (retc, out, w)
        else other argv cwd w
    | _ => other argv cwd w
    end.

(** A command whose last word is [arg] answers [retc]. *)
Definition on_last (arg : string) (retc : Z) (out : string) (other : behaviour)
  : behaviour :=
  fun argv cwd w =>
    if bool_decide (last argv = Some arg) then (retc, out, w)
    else other argv cwd w.

End Sim.

(** ** Reading a trace *)

(** The call site of a command event. *)
Definition event_op (e : event) : option op :=
  match e with
  | EvRun o _ _ _ _ => Some o
  | _ => None
  end.

(** The commands of a trace, by call site, in order. *)
Definition runs (t : list event) : list op := omap event_op t.

(** The commands of a trace with their exit codes. *)
Definition event_exit (e : event) : option (op * Z) :=
  match e with
  | EvRun o _ _ retc _ => Some (o, retc)
  | _ => None
  end.

Definition exits (t : list event) : list (op * Z) := omap event_exit t.

(** Is the command one of the patch pipeline (apply, stage, commit)? *)
Definition is_pipeline_op (o : op) : bool :=
  match o with
  | OpApply _ _ | OpAdd | OpCommit => true
  | _ => false
  end.

(** ** Inputs the statements are tried on *)

Module Examples.

Definition ctx0 : Context := mkContext None "/work" false false ∅.

Definition git_repo : Repo :=
  mkRepo Git "meta" "https://host/meta" "/work/meta" (Some "master") [""] [] false.

Definition hg_repo : Repo :=
  mkRepo Mercurial "meta" "https://host/meta" "/work/meta" (Some "default")
    [""] [] false.

Definition empty_world : Sim.world := Sim.mkWorld [] [] 0.

(** The working tree is there already. *)
Definition cloned_world : Sim.world := Sim.mkWorld [] ["/work/meta"] 0.

(** The refspec is not known locally and the fetch fails. *)
Definition offline : Sim.behaviour :=
  Sim.on "git" "cat-file" 1 "" (Sim.on "git" "fetch" 128 "" (Sim.always 0)).

(** The working tree has a modified file. *)
Definition dirty : Sim.behaviour :=
  Sim.on "git" "status" 0 " M conf/layer.conf" (Sim.always 0).

(** A repository of patches and its entry in the registry. *)
Definition patches_repo : Repo :=
  mkRepo Git "patches" "https://host/patches" "/work/patches" (Some "master")
    [""] [] false.

(** A reference cache is configured. *)
Definition ctx_ref : Context := mkContext (Some "/refs") "/work" false false ∅.

Definition ctx1 : Context :=
  mkContext None "/work" false false {[ "patches" := patches_repo ]}.

(** Three declared patches, each a file of the patch repository. *)
Definition three_patches : list Patch :=
  [mkPatch "p1" "patches" "a.patch";
   mkPatch "p2" "patches" "b.patch";
   mkPatch "p3" "patches" "c.patch"].

Definition patched_repo : Repo :=
  mkRepo Git "meta" "https://host/meta" "/work/meta" (Some "master") [""]
    three_patches false.

(** A patch entry that names a repository the registry lacks. *)
Definition orphan_repo : Repo :=
  mkRepo Git "meta" "https://host/meta" "/work/meta" (Some "master") [""]
    [mkPatch "p1" "patches" "a.patch"; mkPatch "p2" "nowhere" "b.patch"] false.

(** A remote repository with five configured layers. *)
Definition layered_config : RepoConfig :=
  mkRepoConfig
    (Some [("meta-a", PNone); ("meta-b", PStr "Disabled"); ("meta-c", PBool false);
           ("meta-d", PInt 1); ("meta-e", PInt 0)])
    None (Some "https://host/meta") None None (Some "master") None.

(** The same repository with no ['layers'] key. *)
Definition plain_config : RepoConfig :=
  mkRepoConfig None None (Some "https://host/meta") None None (Some "master") None.

Definition no_defaults : RepoDefaults := mkRepoDefaults None None.

Definition nl : string := String PyStr.LF "".

(** The series file of the specification. *)
Definition series_text : string :=
  "foo.patch" +:+ nl +:+ "# comment" +:+ nl +:+ nl +:+ "bar.patch # note" +:+ nl.

Definition patch_world : Sim.world :=
  Sim.mkWorld
    [("/work/patches/a.patch", ""); ("/work/patches/b.patch", "");
     ("/work/patches/c.patch", "");
     ("/work/patches/set/series", series_text);
     ("/work/patches/set/foo.patch", ""); ("/work/patches/set/bar.patch", "")]
    ["/work/meta"; "/work/patches"; "/work/patches/set"] 0.

(** The second patch does not apply. *)
Definition second_fails : Sim.behaviour :=
  Sim.on_last "/work/patches/b.patch" 1 "error: patch failed" (Sim.always 0).

End Examples.

(** ** The series file, in the words of the specification *)

Module Series.

(** A blank line: nothing but its line feed. *)
Definition blank (line : string) : bool :=
  (String.eqb line "" || String.eqb line (String PyStr.LF ""))%bool.

(** A line beginning with ['#']. *)
Definition comment (line : string) : bool := PyStr.startswith line "#".

Definition skipped (line : string) : bool := (blank line || comment line)%bool.

(** [sep] occurs in [s] at index [n]. *)
Definition occurs_at (sep s : string) (n : nat) : Prop :=
  exists a b, s = a +:+ sep +:+ b /\ String.length a = n.

(** [p] is the text of [s] before the first occurrence of [sep],
    all of [s] when [sep] does not occur. *)
Definition text_before (sep s p : string) : Prop :=
  (exists rest, s = p +:+ sep +:+ rest
                /\ forall n, occurs_at sep s n -> (String.length p <= n)%nat)
  \/ (p = s /\ forall n, ~ occurs_at sep s n).

Fixpoint all_space (s : string) : bool :=
  match s with
  | EmptyString => true
  | String c s' => PyStr.isspace c && all_space s'
  end.

(** [r] is [s] without its trailing white space. *)
Definition right_trimmed (s r : string) : Prop :=
  exists w, s = r +:+ w /\ all_space w = true
            /\ forall r' c, r = r' +:+ String c "" -> PyStr.isspace c = false.

(** The file name a line stands for. *)
Definition name_of (line : string) : string :=
  PyStr.rstrip (PyStr.split0 " #" line).

(** The names a list of lines stands for, in line order. *)
Definition names_of (lines : list string) : list string :=
  map name_of (List.filter (fun line => negb (skipped line)) lines).

(** The names of a series file, in line order. *)
Definition names (text : string) : list string :=
  names_of (PyStr.iter_lines text).

Inductive outcome : Type :=
| Files (fs : list string)
| ParseError
| MissingFile (p : string).

(** A name that stops the resolution: it is empty or names no
    file of the directory. *)
Definition bad (isfile : string -> bool) (dir pn : string) : bool :=
  (String.eqb pn "" || negb (isfile (OsPath.join dir pn)))%bool.

(** What the lines of a series file in [dir] resolve to: the
    first bad name decides the failure. *)
Definition resolve_lines (isfile : string -> bool) (dir : string)
    (lines : list string) : outcome :=
  let ns := names_of lines in
  match List.find (bad isfile dir) ns with
  | None => Files (map (OsPath.join dir) ns)
  | Some pn =>
      if String.eqb pn "" then ParseError else MissingFile (OsPath.join dir pn)
  end.

Definition resolve (isfile : string -> bool) (dir text : string) : outcome :=
  resolve_lines isfile dir (PyStr.iter_lines text).

End Series.

(** A declared patch entry that cannot be resolved in the world
    [env]: its repository is not in the registry, or its path is
    neither a file nor a directory with a [series] file, or the series
    file has a line with no name or lists a file that is not there. *)
Definition entry_fails {Env : Type} {sys : System Env} (ctx : Context) (env : Env)
    (p : Patch) : Prop :=
  match repo_dict ctx !! patch_repo p with
  | None => True
  | Some other_repo =>
      let pth := OsPath.join (path other_repo) (patch_path p) in
      path_isfile pth env = false
      /\ (~ (path_isdir pth env = true
             /\ path_isfile (OsPath.join pth "series") env = true)
          \/ exists pn,
              pn ∈ Series.names (read_text (OsPath.join pth "series") env)
              /\ (pn = "" \/ path_isfile (OsPath.join pth pn) env = false))
  end.

(** ** The patch pipeline, read off a trace *)

(** The commands of a trace: call site, argument vector, exit code. *)
Definition event_call (e : event) : option (op * list string * Z) :=
  match e with
  | EvRun o argv _ retc _ => Some (o, argv, retc)
  | _ => None
  end.

Definition calls (t : list event) : list (op * list string * Z) :=
  omap event_call t.

(** The three commands of one patch, all with exit code 0. *)
Definition patch_done (r : Repo) (p : string * string) : list (op * list string * Z) :=
  [(OpApply (fst p) (snd p), apply_patches_file_cmd r (fst p), 0);
   (OpAdd, add_cmd r, 0);
   (OpCommit, commit_cmd r, 0)].

(** The commands of a patch whose pipeline stops with exit code
    [retc]: at the apply, at the staging, or at the commit. *)
Definition patch_stopped (r : Repo) (p : string * string) (retc : Z)
    (cs : list (op * list string * Z)) : Prop :=
  cs = [(OpApply (fst p) (snd p), apply_patches_file_cmd r (fst p), retc)]
  \/ cs = [(OpApply (fst p) (snd p), apply_patches_file_cmd r (fst p), 0);
           (OpAdd, add_cmd r, retc)]
  \/ cs = [(OpApply (fst p) (snd p), apply_patches_file_cmd r (fst p), 0);
           (OpAdd, add_cmd r, 0);
           (OpCommit, commit_cmd r, retc)].

Definition is_commit_done (c : op * list string * Z) : bool :=
  match c with
  | (OpCommit, _, retc) => retc =? 0
  | _ => false
  end.

(** The number of commits a trace made. *)
Definition commits (t : list event) : nat :=
  List.length (List.filter is_commit_done (calls t)).

(** A block that did not end well: a [return] of a code other than
    0, or a missing file. *)
Definition failed {A} (c : ctrl Z A) : Prop :=
  (exists retc, c = Return retc /\ retc <> 0)
  \/ exists p, c = Raise (FileNotFoundError p).

(** ** The reference cache under cooperative scheduling

    [fetch_async] is a coroutine: it runs without interruption up to
    an [await] and may be resumed after any number of turns of other
    coroutines.  The block that fills the reference cache has one
    [await], that of the clone command, which cuts it in three turns. *)

Section Coroutine.

Context {Env : Type} {sys : System Env} {environ : Environ}.
Variable ctx : Context.

(** Where the block stands between two turns. *)
Inductive coro : Type :=
| Start
| Awaiting (tmpdir : string) (cmd : list string)
| Resumed (tmpdir : string) (retc : Z) (out : string)
| Finished (c : ctrl Z unit).

(** First turn: from the test of the cache entry to the [await];
    when the command cannot be built the [with] block is left at once. *)
Definition refdir_enter (r : Repo) (env : Env) : coro * list event * Env :=
  match kas_repo_ref_dir ctx, ref_sdir ctx r with
  | Some refdir, Some sdir =>
      if negb (path_exists sdir env) then
        let env1 := makedirs refdir env in
        match mkdtemp (qualified_name r +:+ ".") refdir env1 with
        | (tmpdir, env2) =>
            match clone_cmd r (Some tmpdir) true with
            | Ok cmd =>
                (Awaiting tmpdir cmd, [EvMakedirs refdir; EvMkdtemp tmpdir], env2)
            | Err e =>
                (Finished (Raise e),
                 [EvMakedirs refdir; EvMkdtemp tmpdir; EvCleanup tmpdir],
                 rmtree tmpdir env2)
            end
        end
      else (Finished (Next tt), [], env)
  | _, _ => (Finished (Next tt), [], env)
  end.

(** Second turn: the command runs. *)
Definition refdir_await (tmpdir : string) (cmd : list string) (env : Env)
  : coro * list event * Env :=
  match exec cmd (kas_work_dir ctx) true true env with
  | (retc, out, env') =>
      (Resumed tmpdir retc out,
       [EvRun OpCloneRef cmd (kas_work_dir ctx) retc out], env')
  end.

(** The statements after the [await], inside the [with] block. *)
Definition refdir_after (r : Repo) (tmpdir : string) (retc : Z) : Py Env Z unit :=
  if negb (retc =? 0) then return_ retc
  else
    logging Debug "Created repo ref for %s";;
    try_except
      (os_rename tmpdir (default "" (ref_sdir ctx r));;
       if version_lt_38 then os_makedirs tmpdir else mret tt)
      is_OSError
      (logging Debug "repo %s already cloned by other instance").

(** Third turn: from the [await] to the end of the [with] block,
    which removes the temporary directory. *)
Definition refdir_resume (r : Repo) (tmpdir : string) (retc : Z) (env : Env)
  : coro * list event * Env :=
  match refdir_after r tmpdir retc env with
  | (c, t, env') => (Finished c, t ++ [EvCleanup tmpdir], rmtree tmpdir env')
  end.

(** One turn of the coroutine. *)
Definition turn (r : Repo) (k : coro) (env : Env) : coro * list event * Env :=
  match k with
  | Start => refdir_enter r env
  | Awaiting tmpdir cmd => refdir_await tmpdir cmd env
  | Resumed tmpdir retc _ => refdir_resume r tmpdir retc env
  | Finished c => (Finished c, [], env)
  end.

(** [n] turns in a row. *)
Fixpoint turns (n : nat) (r : Repo) (k : coro) (env : Env)
  : coro * list event * Env :=
  match n with
  | O => (k, [], env)
  | S n' =>
      match turn r k env with
      | (k1, t1, env1) =>
          match turns n' r k1 env1 with
          | (k2, t2, env2) => (k2, t1 ++ t2, env2)
          end
      end
  end.

(** Two coroutines, the events so far, and the world they share. *)
Definition config : Type := coro * coro * list event * Env.

(** A turn of the first coroutine ([true]) or of the second. *)
Definition sched_turn (ra rb : Repo) (first : bool) (cf : config) : config :=
  match cf with
  | (ka, kb, t, env) =>
      if first then
        match turn ra ka env with
        | (ka', t', env') => (ka', kb, t ++ t', env')
        end
      else
        match turn rb kb env with
        | (kb', t', env') => (ka, kb', t ++ t', env')
        end
  end.

(** The turns a scheduler gives, in order. *)
Definition run_schedule (ra rb : Repo) (sched : list bool) (cf : config) : config :=
  fold_left (fun cf first => sched_turn ra rb first cf) sched cf.

(** The temporary directory a coroutine has in hand. *)
Definition held (k : coro) : option string :=
  match k with
  | Awaiting tmpdir _ | Resumed tmpdir _ _ => Some tmpdir
  | _ => None
  end.

Definition is_finished (k : coro) : bool :=
  match k with Finished _ => true | _ => false end.

End Coroutine.

(** A name of a directory entry: not empty and without ['/']. *)
Definition is_name (n : string) : bool :=
  (negb (String.eqb n "") && negb (PyStr.mem n "/"))%bool.

(** What is asked of the file system under the cache root [rd].
    Creating, renaming and removing one entry of [rd], and running a
    command, leave the other entries as they are; the temporary
    directory made is a new entry whose name starts with the prefix;
    a rename puts the destination in place of the source, and when it
    fails although the source is there, the destination exists. *)
Record CacheRoot {Env : Type} {sys : System Env} (rd : string) : Prop := {
  root_makedirs : forall n env,
    is_name n = true ->
    path_exists (OsPath.join rd n) (makedirs rd env) = path_exists (OsPath.join rd n) env;
  root_mkdtemp : forall pre env tmp env',
    is_name pre = true ->
    mkdtemp pre rd env = (tmp, env') ->
    exists sfx,
      PyStr.mem sfx "/" = false
      /\ tmp = OsPath.join rd (pre +:+ sfx)
      /\ path_exists tmp env = false
      /\ path_exists tmp env' = true
      /\ forall n, is_name n = true -> n <> pre +:+ sfx ->
                   path_exists (OsPath.join rd n) env' = path_exists (OsPath.join rd n) env;
  root_exec : forall argv cwd fail liveupdate env n,
    is_name n = true ->
    path_exists (OsPath.join rd n) (snd (exec argv cwd fail liveupdate env))
    = path_exists (OsPath.join rd n) env;
  root_rename_done : forall a b env env',
    is_name a = true -> is_name b = true -> a <> b ->
    rename (OsPath.join rd a) (OsPath.join rd b) env = Some env' ->
    path_exists (OsPath.join rd b) env' = true
    /\ path_exists (OsPath.join rd a) env' = false
    /\ forall n, is_name n = true -> n <> a -> n <> b ->
                 path_exists (OsPath.join rd n) env' = path_exists (OsPath.join rd n) env;
  root_rename_failed : forall a b env,
    is_name a = true -> is_name b = true ->
    rename (OsPath.join rd a) (OsPath.join rd b) env = None ->
    path_exists (OsPath.join rd a) env = true ->
    path_exists (OsPath.join rd b) env = true;
  root_recreate : forall a env,
    is_name a = true ->
    path_exists (OsPath.join rd a) (makedirs (OsPath.join rd a) env) = true
    /\ forall n, is_name n = true -> n <> a ->
                 path_exists (OsPath.join rd n) (makedirs (OsPath.join rd a) env)
                 = path_exists (OsPath.join rd n) env;
  root_rmtree : forall a env,
    is_name a = true ->
    path_exists (OsPath.join rd a) (rmtree (OsPath.join rd a) env) = false
    /\ forall n, is_name n = true -> n <> a ->
                 path_exists (OsPath.join rd n) (rmtree (OsPath.join rd a) env)
                 = path_exists (OsPath.join rd n) env
}.

(** The invariant of two coroutines filling the cache entry [qn] of
    the cache root [rd]. *)
Section RaceInvariant.

Context {Env : Type} {sys : System Env} {environ : Environ}.
Variables (rd qn : string).

(** A temporary directory of the cache root: an entry other than
    the cache entry. *)
Definition temp (tmp : string) : Prop :=
  exists nm, is_name nm = true /\ nm <> qn /\ tmp = OsPath.join rd nm.

(** What holds of a coroutine between two turns: the temporary
    directory it has in hand exists, the command it awaits is its
    clone command, the command it resumes from has exit code 0, and
    when it has finished it has succeeded and the cache entry exists. *)
Definition good (r : Repo) (k : coro) (env : Env) : Prop :=
  match k with
  | Start => True
  | Awaiting tmp cmd =>
      temp tmp /\ path_exists tmp env = true /\ clone_cmd r (Some tmp) true = Ok cmd
  | Resumed tmp retc _ => temp tmp /\ path_exists tmp env = true /\ retc = 0
  | Finished c => c = Next tt /\ path_exists (OsPath.join rd qn) env = true
  end.

(** The temporary directories the trace has made are in the hand
    of a coroutine or gone. *)
Definition made (k ko : coro) (t : list event) (env : Env) : Prop :=
  forall tmp, EvMkdtemp tmp ∈ t ->
              temp tmp
              /\ (held k = Some tmp \/ held ko = Some tmp \/ path_exists tmp env = false).

(** The invariant of the pair: each coroutine is as [good] asks,
    the two have different temporary directories in hand, and the
    directories made are accounted for. *)
Definition race_inv (ra rb : Repo) (cf : config) : Prop :=
  match cf with
  | (ka, kb, t, env) =>
      good ra ka env /\ good rb kb env
      /\ (forall ta tb, held ka = Some ta -> held kb = Some tb -> ta <> tb)
      /\ made ka kb t env
  end.

(** How far a coroutine is: the number of turns it has taken, 3
    when it has finished. *)
Definition progress (k : coro) : nat :=
  match k with
  | Start => 0
  | Awaiting _ _ => 1
  | Resumed _ _ _ => 2
  | Finished _ => 3
  end.

End RaceInvariant.

(** The number of turns a schedule gives to the first coroutine and
    to the second. *)
Definition turns_of (first : bool) (sched : list bool) : nat :=
  List.length (List.filter (Bool.eqb first) sched).

(** ** Proof steps

    Unfolding the monad and taking the cases of the next [match]. *)

Ltac py_unfold :=
  unfold mbind, Py_MBind, Py_bind, query, os_makedirs, with_TemporaryDirectory,
    try_except, os_rename, run_cmd, run_cmd_async, logging, lift, return_, raise,
    mret, Py_MRet, Py_ret in *.

Ltac py_case :=
  match goal with
  | H : context [match ?x with _ => _ end] |- _ => destruct x eqn:?
  | |- context [match ?x with _ => _ end] => destruct x eqn:?
  end.

Ltac py_case_hyp :=
  match goal with
  | H : context [match ?x with _ => _ end] |- _ => destruct x eqn:?
  end.

Ltac py_cases := repeat (py_case; simplify_eq/=).

Import Examples.

(** * Properties *)

(** ** Traces *)

Lemma runs_app t1 t2 : runs (t1 ++ t2) = runs t1 ++ runs t2.
Proof. apply omap_app. Qed.

Lemma elem_of_runs o argv cwd retc out t :
  EvRun o argv cwd retc out ∈ t -> o ∈ runs t.
Proof.
  intros H. unfold runs. apply list_elem_of_omap.
  exists (EvRun o argv cwd retc out). done.
Qed.

(** ** [fetch_async] *)

Section FetchProps.
Context {Env : Type} {sys : System Env} {environ : Environ}.
Variable ctx : Context.

Lemma bind_inv {R A B} (m : Py Env R A) (k : A -> Py Env R B) env c t env' :
  (m ≫= k) env = (c, t, env') ->
  (exists a t1 env1 t2,
      m env = (Next a, t1, env1) /\ k a env1 = (c, t2, env') /\ t = t1 ++ t2)
  \/ (exists r, m env = (Return r, t, env') /\ c = Return r)
  \/ (exists e, m env = (Raise e, t, env') /\ c = Raise e).
Proof.
  unfold mbind, Py_MBind, Py_bind.
  destruct (m env) as [[[a|r|e] t1] env1].
  - destruct (k a env1) as [[c2 t2] env2] eqn:Hk. intros [= <- <- <-].
    left. eauto 10.
  - intros [= <- <- <-]. right; left; eauto.
  - intros [= <- <- <-]. right; right; eauto.
Qed.

Lemma fetch_refdir_runs r env c t env' :
  fetch_refdir ctx r env = (c, t, env') ->
  forall o, o ∈ runs t -> o = OpCloneRef.
Proof.
  unfold fetch_refdir.
  destruct (kas_repo_ref_dir ctx) as [refdir|];
    [|intros [= <- <- <-] o Ho; by apply elem_of_nil in Ho].
  destruct (ref_sdir ctx r) as [sdir|];
    [|intros [= <- <- <-] o Ho; by apply elem_of_nil in Ho].
  py_unfold. intros H o. py_cases; set_solver.
Qed.

Lemma fetch_clone_runs r env c t env' :
  fetch_clone ctx r env = (c, t, env') ->
  forall o, o ∈ runs t -> o = OpClone.
Proof.
  unfold fetch_clone. py_unfold. intros H o. py_cases; set_solver.
Qed.

Lemma fetch_set_remote_url_runs r env c t env' :
  fetch_set_remote_url r env = (c, t, env') ->
  forall o, o ∈ runs t -> o = OpSetRemoteUrl.
Proof.
  unfold fetch_set_remote_url. py_unfold. intros H o. py_cases; set_solver.
Qed.

(** The stages before the refspec is looked at, as one block. *)
Lemma fetch_async_inv r env c t env' :
  fetch_async ctx r env = (c, t, env') ->
  (forall o, o ∈ runs t -> o = OpCloneRef \/ o = OpClone \/ o = OpSetRemoteUrl)
  \/ exists t0 env0 t1,
      t = t0 ++ t1 /\ is_Some (refspec r) /\ operations_disabled r = false
      /\ (forall o, o ∈ runs t0 -> o = OpCloneRef \/ o = OpClone \/ o = OpSetRemoteUrl)
      /\ fetch_refspec ctx r env0 = (c, t1, env').
Proof.
  unfold fetch_async. destruct (operations_disabled r) eqn:Hop.
  { intros [= <- <- <-]. left. intros o Ho. by apply elem_of_nil in Ho. }
  intros H.
  apply bind_inv in H as [(a1 & t1 & env1 & t1' & H1 & H & ->)|[(rc & H1 & ->)|(e & H1 & ->)]].
  2,3: left; intros o Ho; left; eapply fetch_refdir_runs; eauto.
  apply bind_inv in H as [(a2 & t2 & env2 & t2' & H2 & H & ->)|[(rc & H2 & ->)|(e & H2 & ->)]].
  2,3: left; intros o; rewrite runs_app, elem_of_app; intros [Ho|Ho];
       [left; eapply fetch_refdir_runs; eauto| right; left; eapply fetch_clone_runs; eauto].
  apply bind_inv in H as [(a3 & t3 & env3 & t3' & H3 & H & ->)|[(rc & H3 & ->)|(e & H3 & ->)]].
  2,3: left; intros o; rewrite !runs_app, !elem_of_app; intros [Ho|[Ho|Ho]];
       [left; eapply fetch_refdir_runs; eauto
       | right; left; eapply fetch_clone_runs; eauto
       | right; right; eapply fetch_set_remote_url_runs; eauto].
  assert (Hpre : forall o, o ∈ runs (t1 ++ t2 ++ t3) ->
                           o = OpCloneRef \/ o = OpClone \/ o = OpSetRemoteUrl).
  { intros o; rewrite !runs_app, !elem_of_app; intros [Ho|[Ho|Ho]];
       [left; eapply fetch_refdir_runs; eauto
       | right; left; eapply fetch_clone_runs; eauto
       | right; right; eapply fetch_set_remote_url_runs; eauto]. }
  destruct (refspec r) as [rs|] eqn:Hrs.
  - right. exists (t1 ++ t2 ++ t3), env3, t3'. rewrite <- !app_assoc. eauto 10.
  - left. unfold return_ in H. simplify_eq. rewrite !app_nil_r.
    exact Hpre.
Qed.

Lemma fetch_refspec_contains r env c t env' argv cwd out :
  fetch_refspec ctx r env = (c, t, env') ->
  EvRun OpContainsRefspec argv cwd 0 out ∈ t ->
  c = Return 0 /\
  t = [EvRun OpContainsRefspec argv cwd 0 out;
       EvLog Info "Repository %s already contains %s as %s"].
Proof.
  unfold fetch_refspec. py_unfold. intros H Hin.
  py_cases; set_solver.
Qed.

Lemma fetch_refspec_fetch r env c t env' argv cwd retc out :
  fetch_refspec ctx r env = (c, t, env') ->
  EvRun OpFetch argv cwd retc out ∈ t ->
  c = Return 0 /\
  exists t0 env0,
    t = t0 ++ [EvRun OpFetch argv cwd retc out;
               EvLog (if retc =? 0 then Info else Warning)
                     (if retc =? 0 then "Repository %s updated"
                      else "Could not update repository %s: %s")]
    /\ exec argv cwd false true env0 = (retc, out, env').
Proof.
  unfold fetch_refspec. py_unfold. intros H Hin.
  repeat (py_case_hyp; simplify_eq/=); try set_solver.
  all: set_unfold in Hin; destruct_or!; simplify_eq; split; [done|].
  all: match goal with
       | H : exec _ _ false true ?e = (?z, _, _), Hz : negb (?z =? 0) = ?b |- _ =>
           destruct (z =? 0) eqn:?; simplify_eq/=
       end.
  all: first [ by eexists [_], _ | by eexists [], _ ].
Qed.

(** C4: with a refspec and no update flag, a [contains_refspec]
    query that exits with 0 ends [fetch_async] at once: it returns 0,
    the query and its log line are the last events, and the fetch
    command is not run. *)
Theorem fetch_async_refspec_present r env c t env' argv cwd out :
  fetch_async ctx r env = (c, t, env') ->
  is_Some (refspec r) ->
  update ctx = false ->
  EvRun OpContainsRefspec argv cwd 0 out ∈ t ->
  c = Return 0
  /\ OpFetch ∉ runs t
  /\ exists t0,
      t = t0 ++ [EvRun OpContainsRefspec argv cwd 0 out;
                 EvLog Info "Repository %s already contains %s as %s"].
Proof.
  intros H _ _ Hin.
  apply fetch_async_inv in H as [Hpre|(t0 & env0 & t1 & -> & _ & _ & Hpre & H)].
  { apply elem_of_runs, Hpre in Hin. naive_solver. }
  apply elem_of_app in Hin as [Hin|Hin].
  { apply elem_of_runs, Hpre in Hin. naive_solver. }
  destruct (fetch_refspec_contains _ _ _ _ _ _ _ _ H Hin) as [-> ->].
  split; [done|]. split; [|by exists t0].
  rewrite runs_app, elem_of_app. intros [Hf|Hf].
  - apply Hpre in Hf. naive_solver.
  - simpl in Hf. set_solver.
Qed.

(** C5: once the fetch command has been run, [fetch_async] returns
    0 whatever its exit code; the command and one log line (a warning
    when the code is not 0) are the last events, and the world is the
    one the command left. *)
Theorem fetch_async_fetch_never_fatal r env c t env' argv cwd retc out :
  fetch_async ctx r env = (c, t, env') ->
  EvRun OpFetch argv cwd retc out ∈ t ->
  c = Return 0
  /\ exists t0 env0,
      t = t0 ++ [EvRun OpFetch argv cwd retc out;
                 EvLog (if retc =? 0 then Info else Warning)
                       (if retc =? 0 then "Repository %s updated"
                        else "Could not update repository %s: %s")]
      /\ exec argv cwd false true env0 = (retc, out, env').
Proof.
  intros H Hin.
  apply fetch_async_inv in H as [Hpre|(t0 & env0 & t1 & -> & _ & _ & Hpre & H)].
  { apply elem_of_runs, Hpre in Hin. naive_solver. }
  apply elem_of_app in Hin as [Hin|Hin].
  { apply elem_of_runs, Hpre in Hin. naive_solver. }
  destruct (fetch_refspec_fetch _ _ _ _ _ _ _ _ _ H Hin) as (-> & t2 & env2 & -> & Hex).
  split; [done|]. exists (t0 ++ t2), env2. by rewrite <- app_assoc.
Qed.

End FetchProps.

Lemma fetch_async_refspec_present_witness :
  Return (A:=unit) 0 = Return 0
  /\ OpFetch ∉ runs
       [EvRun OpSetRemoteUrl ["git"; "remote"; "set-url"; "origin"; "https://host/meta"]
          "/work/meta" 0 "";
        EvRun OpContainsRefspec ["git"; "cat-file"; "-t"; "master"] "/work/meta" 0 "";
        EvLog Info "Repository %s already contains %s as %s"]
  /\ exists t0,
      [EvRun OpSetRemoteUrl ["git"; "remote"; "set-url"; "origin"; "https://host/meta"]
         "/work/meta" 0 "";
       EvRun OpContainsRefspec ["git"; "cat-file"; "-t"; "master"] "/work/meta" 0 "";
       EvLog Info "Repository %s already contains %s as %s"]
      = t0 ++ [EvRun OpContainsRefspec ["git"; "cat-file"; "-t"; "master"] "/work/meta" 0 "";
               EvLog Info "Repository %s already contains %s as %s"].
Proof.
  apply (fetch_async_refspec_present (sys := Sim.system (Sim.always 0))
           (environ := Sim.environ) ctx0 git_repo cloned_world _ _ cloned_world).
  - vm_compute. reflexivity.
  - simpl. eauto.
  - reflexivity.
  - apply list_elem_of_In. simpl. auto.
Defined.

Lemma fetch_async_fetch_never_fatal_witness :
  Return (A:=unit) 0 = Return 0
  /\ exists t0 env0,
      [EvRun OpSetRemoteUrl ["git"; "remote"; "set-url"; "origin"; "https://host/meta"]
         "/work/meta" 0 "";
       EvRun OpContainsRefspec ["git"; "cat-file"; "-t"; "master"] "/work/meta" 1 "";
       EvRun OpFetch ["git"; "fetch"; "-q"] "/work/meta" 128 "";
       EvLog Warning "Could not update repository %s: %s"]
      = t0 ++ [EvRun OpFetch ["git"; "fetch"; "-q"] "/work/meta" 128 "";
               EvLog (if 128 =? 0 then Info else Warning)
                     (if 128 =? 0 then "Repository %s updated"
                      else "Could not update repository %s: %s")]
      /\ exec (System := Sim.system offline) ["git"; "fetch"; "-q"] "/work/meta"
           false true env0 = (128, "", cloned_world).
Proof.
  apply (fetch_async_fetch_never_fatal (sys := Sim.system offline)
           (environ := Sim.environ) ctx0 git_repo cloned_world).
  - vm_compute. reflexivity.
  - apply list_elem_of_In. simpl. auto.
Defined.

(** C3: a Mercurial repository whose working tree is missing and
    whose clone exits with 255.  [fetch_async] goes on after the failed
    clone (the remote url, the refspec query and the pull follow) and
    returns 0, not the exit code of the clone. *)
Theorem fetch_async_clone_failure_not_returned :
  fetch_async (sys := Sim.system (Sim.always 255)) (environ := Sim.environ)
    ctx0 hg_repo empty_world
  = (Return 0,
     [EvMakedirs "/work";
      EvRun OpClone ["hg"; "clone"; "https://host/meta"; "/work/meta"] "/work" 255 "";
      EvLog Warning "Repo implementation does not support changing the remote url.";
      EvRun OpContainsRefspec ["hg"; "log"; "-r"; "default"] "/work/meta" 255 "";
      EvRun OpFetch ["hg"; "pull"] "/work/meta" 255 "";
      EvLog Warning "Could not update repository %s: %s"],
     Sim.mkWorld [] ["/work"] 0).
Proof. vm_compute. reflexivity. Qed.

(** ** [checkout] *)

Section CheckoutProps.
Context {Env : Type} {sys : System Env} {environ : Environ}.
Variable ctx : Context.

(** C6: with operations enabled, a refspec and no force flag, a
    dirty query that prints anything ends [checkout] with a plain
    [return]: the trace holds the query and the warning only, so the
    branch is not resolved and nothing is checked out, and the world
    is the one the query left. *)
Theorem checkout_dirty_skipped r env retc output env1 :
  operations_disabled r = false ->
  is_Some (refspec r) ->
  force_checkout ctx = false ->
  exec (is_dirty_cmd r) (path r) false true env = (retc, output, env1) ->
  output <> "" ->
  exists t,
    checkout ctx r env = (Return tt, t, env1)
    /\ t = [EvRun OpIsDirty (is_dirty_cmd r) (path r) retc output;
            EvLog Warning "Repo %s is dirty - no checkout"]
    /\ OpResolveBranch ∉ runs t /\ OpCheckout ∉ runs t.
Proof.
  intros Hop [rs Hrs] Hforce Hexec Hout.
  eexists. split; [|split; [reflexivity|]].
  - unfold checkout. rewrite Hop, Hrs, Hforce. py_unfold. simpl.
    rewrite Hexec. apply String.eqb_neq in Hout. rewrite Hout. reflexivity.
  - simpl. set_solver.
Qed.

End CheckoutProps.

Lemma checkout_dirty_skipped_witness :
  exists t,
    checkout (sys := Sim.system dirty) ctx0 git_repo cloned_world
    = (Return tt, t, cloned_world)
    /\ t = [EvRun OpIsDirty (is_dirty_cmd git_repo) (path git_repo) 0 " M conf/layer.conf";
            EvLog Warning "Repo %s is dirty - no checkout"]
    /\ OpResolveBranch ∉ runs t /\ OpCheckout ∉ runs t.
Proof.
  apply (checkout_dirty_skipped (sys := Sim.system dirty) ctx0 git_repo cloned_world).
  - reflexivity.
  - simpl. eauto.
  - reflexivity.
  - vm_compute. reflexivity.
  - discriminate.
Defined.

(** ** Strings *)

Lemma prefix_app a s : String.prefix a s = true <-> exists b, s = a +:+ b.
Proof.
  revert s. induction a as [|c a IH]; intros s; simpl.
  - split; [intros _; by exists s|]. by destruct s.
  - destruct s as [|d s]; [split; [done|intros [b [=]]]|].
    cbn [prefix]. destruct (ascii_dec c d) as [->|Hne].
    + rewrite IH. split; intros [b Hb]; exists b; [by rewrite Hb|by injection Hb].
    + split; [done|]. intros [b [= -> _]]. done.
Qed.

Lemma append_assoc (a b c : string) : (a +:+ b) +:+ c = a +:+ (b +:+ c).
Proof. induction a; simpl; congruence. Qed.

Lemma append_nil_r (a : string) : a +:+ "" = a.
Proof. induction a; simpl; congruence. Qed.

Lemma split0_text_before sep s :
  sep <> "" -> Series.text_before sep s (PyStr.split0 sep s).
Proof.
  intros Hsep. induction s as [|c s IH]; cbn [PyStr.split0].
  - right. split; [done|]. intros n (a & b & Hab & _).
    destruct a; simpl in Hab; [|discriminate].
    destruct sep; simpl in Hab; [by destruct Hsep|discriminate].
  - destruct (String.prefix sep (String c s)) eqn:Hp.
    + left. apply prefix_app in Hp as [b Hb]. exists b. split; [exact Hb|].
      intros n _. simpl. lia.
    + assert (Hno0 : forall b, String c s <> sep +:+ b).
      { intros b Hb. assert (String.prefix sep (String c s) = true) as Ht
          by (apply prefix_app; eauto). congruence. }
      assert (Hocc : forall n, Series.occurs_at sep (String c s) n ->
                exists m, n = S m /\ Series.occurs_at sep s m).
      { intros n (a & b & Hab & Hn). destruct a as [|d a]; simpl in *.
        - by apply Hno0 in Hab.
        - injection Hab as -> ->. exists (String.length a). split; [done|].
          by exists a, b. }
      destruct IH as [(rest & Hs & Hmin)|[Hs Hnone]].
      * left. exists rest. split; [simpl; by rewrite <- Hs|].
        intros n Hn. apply Hocc in Hn as (m & -> & Hm). apply Hmin in Hm.
        simpl. lia.
      * right. split; [by rewrite Hs|]. intros n Hn.
        apply Hocc in Hn as (m & -> & Hm). by apply Hnone in Hm.
Qed.

Lemma rstrip_by_all p s :
  PyStr.rstrip_by p s = "" <->
  (fix all s := match s with EmptyString => true | String c s' => p c && all s' end) s = true.
Proof.
  induction s as [|c s IH]; simpl; [done|].
  destruct (PyStr.rstrip_by p s) eqn:Hr.
  - destruct (p c); simpl; [|done]. rewrite <- IH. done.
  - split; [done|]. intros [_ Hs]%andb_prop. apply IH in Hs. done.
Qed.

Lemma rstrip_right_trimmed s : Series.right_trimmed s (PyStr.rstrip s).
Proof.
  unfold PyStr.rstrip. induction s as [|c s (w & Hs & Hw & Hlast)]; simpl.
  - exists "". split; [done|]. split; [done|]. intros [|? ?] ?; simpl; done.
  - destruct (PyStr.rstrip_by PyStr.isspace s) eqn:Hr.
    + destruct (PyStr.isspace c) eqn:Hc.
      * exists (String c s). split; [done|]. split.
        -- simpl. rewrite Hc. simpl in Hs. by rewrite Hs.
        -- intros [|? ?] ?; simpl; done.
      * exists w. split; [simpl in *; by rewrite <- Hs|]. split; [done|].
        intros [|? r'] d; simpl; [by intros [= <-]|].
        intros [= _ Hd]. by destruct r'.
    + exists w. split; [simpl in *; congruence|]. split; [done|].
      intros [|e r'] d; simpl.
      * intros [=].
      * intros [= <- Hd]. by apply (Hlast r' d).
Qed.

Lemma iter_lines_is_line text :
  Forall (fun l => PyStr.is_line l = true) (PyStr.iter_lines text).
Proof.
  induction text as [|c s IH]; simpl; [constructor|].
  destruct (Ascii.eqb c PyStr.LF) eqn:Hc.
  - constructor; [done|exact IH].
  - destruct (PyStr.iter_lines s) as [|l ls]; [by repeat constructor|].
    inversion IH as [|? ? Hl Hls]; subst. constructor; [|done].
    destruct l as [|d l]; [done|]. cbn [PyStr.is_line]. rewrite Hc. exact Hl.
Qed.

Lemma blank_test l :
  PyStr.is_line l = true ->
  String.eqb (PyStr.rstrip_chars (String PyStr.LF "") l) "" = Series.blank l.
Proof.
  unfold PyStr.rstrip_chars, Series.blank.
  destruct l as [|c [|d l]]; [done| |].
  - intros _. simpl. rewrite orb_false_r. by destruct (Ascii.eqb c PyStr.LF).
  - cbn [PyStr.is_line]. intros [Hc _]%andb_prop. apply negb_true_iff in Hc.
    set (p := PyStr.mem (String PyStr.LF "")).
    assert (Hp : p c = false) by (unfold p; simpl; by rewrite Hc).
    change (PyStr.rstrip_by p (String c (String d l)))
      with (match PyStr.rstrip_by p (String d l) with
            | "" => if p c then "" else String c ""
            | String a s0 => String c (String a s0)
            end).
    rewrite Hp.
    replace (String c (String d l) =? String PyStr.LF "")%string with false
      by (simpl; rewrite Hc; done).
    by destruct (PyStr.rstrip_by p (String d l)).
Qed.

(** ** The loop over a series file *)

Section SeriesProps.
Context {Env : Type} {sys : System Env}.
Variable ctx : Context.

Lemma resolve_series_lines r patch dir lines ln acc env :
  Forall (fun l => PyStr.is_line l = true) lines ->
  resolve_series r patch dir lines ln acc env =
  match Series.resolve_lines (fun p => path_isfile p env) dir lines with
  | Series.Files fs =>
      (Next (acc ++ map (fun f => (f, patch_id patch)) fs), [], env)
  | Series.ParseError =>
      (Return 1,
       [EvLog Error
          "Could not parse patch file name from a 'series' file. (file: %s, line: %d, repo: %s, patch entry: %s)"],
       env)
  | Series.MissingFile p => (Raise (FileNotFoundError p), [], env)
  end.
Proof.
  intros Hlines. revert ln acc.
  induction Hlines as [|line lines Hline _ IH]; intros ln acc.
  { simpl. unfold mret, Py_MRet, Py_ret. by rewrite app_nil_r. }
  cbn [resolve_series]. rewrite (blank_test _ Hline).
  unfold Series.resolve_lines, Series.names_of. cbn [List.filter].
  change (Series.blank line || PyStr.startswith line "#")%bool
    with (Series.skipped line).
  destruct (Series.skipped line) eqn:Hskip; cbn [negb].
  { rewrite IH. reflexivity. }
  cbn [map List.find]. unfold Series.bad at 1.
  change (PyStr.rstrip (PyStr.split0 " #" line)) with (Series.name_of line).
  destruct (String.eqb (Series.name_of line) "") eqn:Hname; cbn [orb].
  { rewrite Hname. reflexivity. }
  py_unfold.
  destruct (path_isfile (OsPath.join dir (Series.name_of line)) env) eqn:Hf;
    cbn [negb]; rewrite ?Hname.
  - rewrite IH. unfold Series.resolve_lines, Series.names_of.
    destruct (List.find _ _) as [pn|].
    + by destruct (String.eqb pn "").
    + by rewrite <- app_assoc.
  - reflexivity.
Qed.

End SeriesProps.

Lemma calls_app t1 t2 : calls (t1 ++ t2) = calls t1 ++ calls t2.
Proof. apply omap_app. Qed.

(** ** Resolving the declared patches *)

Section ResolveProps.
Context {Env : Type} {sys : System Env}.
Variable ctx : Context.

(** One turn of the loop over the declared patches. *)
Lemma resolve_patches_cons r patch rest acc env :
  resolve_patches ctx r (patch :: rest) acc env =
  match repo_dict ctx !! patch_repo patch with
  | None =>
      (Return 1,
       [EvLog Error
          "Could not find referenced repo. (missing repo: %s, repo: %s, patch entry: %s)"],
       env)
  | Some other_repo =>
      let pth := OsPath.join (path other_repo) (patch_path patch) in
      if path_isfile pth env
      then resolve_patches ctx r rest (acc ++ [(pth, patch_id patch)]) env
      else if (path_isdir pth env && path_isfile (OsPath.join pth "series") env)%bool
      then
        match Series.resolve (fun p => path_isfile p env) pth
                (read_text (OsPath.join pth "series") env) with
        | Series.Files fs =>
            resolve_patches ctx r rest
              (acc ++ map (fun f => (f, patch_id patch)) fs) env
        | Series.ParseError =>
            (Return 1,
             [EvLog Error
                "Could not parse patch file name from a 'series' file. (file: %s, line: %d, repo: %s, patch entry: %s)"],
             env)
        | Series.MissingFile p => (Raise (FileNotFoundError p), [], env)
        end
      else
        (Return 1,
         [EvLog Error
            "Could not find patch. (patch path: %s, repo: %s, patch entry: %s)"],
         env)
  end.
Proof.
  cbn [resolve_patches].
  destruct (repo_dict ctx !! patch_repo patch) as [other|]; [|reflexivity].
  cbn zeta. py_unfold.
  set (pth := OsPath.join (path other) (patch_path patch)).
  destruct (path_isfile pth env).
  { by destruct (resolve_patches ctx r rest _ env) as [[? ?] ?]. }
  destruct (path_isdir pth env); cbn [andb]; [|reflexivity].
  destruct (path_isfile (OsPath.join pth "series") env); [|reflexivity].
  rewrite (resolve_series_lines r patch pth _ 0 acc env (iter_lines_is_line _)).
  unfold Series.resolve.
  destruct (Series.resolve_lines _ _ _); [|reflexivity..].
  by destruct (resolve_patches ctx r rest _ env) as [[? ?] ?].
Qed.

(** Resolution reads the world and runs no command; it ends with
    the resolved list, with [return 1], or with a missing file. *)
Lemma resolve_patches_inv r ps acc env c t env' :
  resolve_patches ctx r ps acc env = (c, t, env') ->
  env' = env /\ calls t = [] /\ runs t = []
  /\ match c with
     | Next _ => t = []
     | Return retc => retc = 1
     | Raise e => exists p, e = FileNotFoundError p
     end.
Proof.
  revert acc. induction ps as [|patch rest IH]; intros acc.
  { intros [= <- <- <-]. done. }
  rewrite resolve_patches_cons.
  destruct (repo_dict ctx !! patch_repo patch) as [other|];
    [|intros [= <- <- <-]; done].
  cbn zeta. destruct (path_isfile _ env); [apply IH|].
  destruct (_ && _)%bool; [|intros [= <- <- <-]; done].
  destruct (Series.resolve _ _ _); [apply IH|intros [= <- <- <-]..]; eauto.
Qed.

Lemma find_bad_elem isfile dir ns pn :
  pn ∈ ns -> (pn = "" \/ isfile (OsPath.join dir pn) = false) ->
  List.find (Series.bad isfile dir) ns <> None.
Proof.
  intros Hin Hbad Hnone.
  apply list_elem_of_In in Hin.
  pose proof (List.find_none _ _ Hnone _ Hin) as Hf.
  unfold Series.bad in Hf. apply orb_false_iff in Hf as [Hne Hfile].
  destruct Hbad as [->|Hb]; [done|]. by rewrite Hb in Hfile.
Qed.

(** A declared entry that cannot be resolved makes the resolution fail. *)
Lemma resolve_patches_fails r ps acc env p c t env' :
  p ∈ ps -> entry_fails ctx env p ->
  resolve_patches ctx r ps acc env = (c, t, env') ->
  c = Return 1 \/ exists f, c = Raise (FileNotFoundError f).
Proof.
  intros Hin Hfail. revert acc.
  induction ps as [|patch rest IH]; intros acc; [by apply elem_of_nil in Hin|].
  intros Hres.
  destruct (resolve_patches_inv _ _ _ _ _ _ _ Hres) as (_ & _ & _ & Hc).
  destruct c as [my|retc|e]; [|left; by subst|right; destruct Hc as [f ->]; eauto].
  exfalso. clear Hc. rewrite resolve_patches_cons in Hres.
  apply elem_of_cons in Hin as [<-|Hin].
  - unfold entry_fails in Hfail.
    destruct (repo_dict ctx !! patch_repo p) as [other|]; [|done].
    cbn zeta in *. destruct Hfail as [Hnf Hfail]. rewrite Hnf in Hres.
    destruct (_ && _)%bool eqn:Hdir; [|done].
    destruct Hfail as [Hnd|(pn & Hpn & Hbad)].
    { apply Hnd. by apply andb_prop in Hdir. }
    unfold Series.resolve, Series.resolve_lines in Hres.
    pose proof (find_bad_elem (fun p0 => path_isfile p0 env) _ _ _ Hpn Hbad) as Hfind.
    unfold Series.names in Hfind.
    destruct (List.find _ _) as [bad|]; [|done].
    by destruct (String.eqb bad "").
  - destruct (repo_dict ctx !! patch_repo patch) as [other|]; [|done].
    cbn zeta in *. destruct (path_isfile _ env).
    { destruct (IH Hin _ Hres) as [?|[? ?]]; done. }
    destruct (_ && _)%bool; [|done].
    destruct (Series.resolve _ _ _); [|done..].
    destruct (IH Hin _ Hres) as [?|[? ?]]; done.
Qed.

End ResolveProps.

(** ** The patch pipeline *)

Section PipelineProps.
Context {Env : Type} {sys : System Env}.

(** The loop over the resolved patches: [k] patches went through
    apply, stage and commit; the loop then ended, or the next patch
    stopped it at its first command with a code other than 0. *)
Lemma apply_resolved_inv r my env c t env' :
  apply_resolved r my env = (c, t, env') ->
  exists k partial,
    calls t = flat_map (patch_done r) (take k my) ++ partial
    /\ List.length (List.filter is_commit_done (calls t)) = k
    /\ ((c = Next tt /\ k = List.length my /\ partial = [])
        \/ (c = Return 1
            /\ exists p retc,
                my !! k = Some p /\ retc <> 0 /\ patch_stopped r p retc partial)).
Proof.
  revert env c t env'. induction my as [|[pth pid] rest IH]; intros env c t env'.
  { intros [= <- <- <-]. exists 0%nat, []. split; [done|]. split; [done|]. by left. }
  cbn [apply_resolved]. py_unfold.
  destruct (exec (apply_patches_file_cmd r pth) (path r) true true env)
    as [[rc1 out1] env1] eqn:H1.
  destruct (rc1 =? 0) eqn:Hrc1; cbn [negb].
  2:{ intros [= <- <- <-]. exists 0%nat, [(OpApply pth pid, apply_patches_file_cmd r pth, rc1)].
      split; [done|]. split; [done|]. right. split; [done|].
      exists (pth, pid), rc1. split; [done|]. split; [lia|]. by left. }
  apply Z.eqb_eq in Hrc1 as ->.
  destruct (exec (add_cmd r) (path r) true true env1) as [[rc2 out2] env2] eqn:H2.
  destruct (rc2 =? 0) eqn:Hrc2; cbn [negb].
  2:{ intros [= <- <- <-].
      exists 0%nat, [(OpApply pth pid, apply_patches_file_cmd r pth, 0);
                     (OpAdd, add_cmd r, rc2)].
      split; [done|]. split; [done|]. right. split; [done|].
      exists (pth, pid), rc2. split; [done|]. split; [lia|]. right; by left. }
  apply Z.eqb_eq in Hrc2 as ->.
  destruct (exec (commit_cmd r) (path r) true true env2) as [[rc3 out3] env3] eqn:H3.
  destruct (rc3 =? 0) eqn:Hrc3; cbn [negb].
  2:{ intros [= <- <- <-].
      exists 0%nat, [(OpApply pth pid, apply_patches_file_cmd r pth, 0);
                     (OpAdd, add_cmd r, 0); (OpCommit, commit_cmd r, rc3)].
      split; [done|]. split; [simpl; by rewrite Hrc3|]. right. split; [done|].
      exists (pth, pid), rc3. split; [done|]. split; [lia|]. right; by right. }
  apply Z.eqb_eq in Hrc3 as ->.
  destruct (apply_resolved r rest env3) as [[c' t'] env''] eqn:Hrest.
  intros [= <- <- <-].
  destruct (IH _ _ _ _ Hrest) as (k & partial & Hcalls & Hcommits & Hend).
  exists (S k), partial. cbn [take flat_map].
  split; [simpl; by rewrite Hcalls|].
  split; [simpl; by rewrite Hcommits|].
  destruct Hend as [(-> & -> & ->)|(-> & p & retc & Hp & Hne & Hstop)].
  - by left.
  - right. split; [done|]. exists p, retc. done.
Qed.

End PipelineProps.

(** ** [apply_patches_async] *)

Section PatchTheorems.
Context {Env : Type} {sys : System Env}.
Variable ctx : Context.


(** C2: a declared entry that cannot be resolved (in the world the
    preparation of the patch branch leaves) makes
    [apply_patches_async] fail, and the preparation is the only
    command it has run: no patch is applied, staged or committed. *)
Theorem apply_patches_async_resolves_first r env cmd retc out env1 p :
  operations_disabled r = false ->
  prepare_patches_cmd r = Ok cmd ->
  exec cmd (path r) true true env = (retc, out, env1) ->
  p ∈ _patches r ->
  entry_fails ctx env1 p ->
  exists c t,
    apply_patches_async ctx r env = (c, t, env1)
    /\ failed c
    /\ runs t = [OpPreparePatches]
    /\ Forall (fun o => is_pipeline_op o = false) (runs t).
Proof.
  intros Hop Hcmd Hprep Hin Hfail.
  assert (Hne : _patches r <> []) by (intros Hnil; rewrite Hnil in Hin; by apply elem_of_nil in Hin).
  unfold apply_patches_async. rewrite Hop, Hcmd.
  rewrite bool_decide_eq_false_2 by done. cbn [orb].
  py_unfold. rewrite Hprep.
  destruct (retc =? 0) eqn:Hrc; cbn [negb].
  2:{ apply Z.eqb_neq in Hrc. eexists _, _. split; [reflexivity|].
      split; [left; eauto|]. split; [done|]. by repeat constructor. }
  destruct (resolve_patches ctx r (_patches r) [] env1) as [[c t] env2] eqn:Hres.
  destruct (resolve_patches_inv _ _ _ _ _ _ _ _ Hres) as (-> & _ & Hruns & _).
  destruct (resolve_patches_fails _ _ _ _ _ _ _ _ _ Hin Hfail Hres) as [->|[f ->]].
  - eexists _, _. split; [reflexivity|]. split; [left; by exists 1|].
    rewrite !runs_app, Hruns. split; [done|].
    by repeat constructor.
  - eexists _, _. split; [reflexivity|]. split; [right; eauto|].
    rewrite !runs_app, Hruns. split; [done|].
    by repeat constructor.
Qed.

End PatchTheorems.


(** The scenario of the specification: of three declared patches the
    second does not apply.  One commit is made, for the first patch;
    the result is 1 and nothing is run for the third patch. *)
Example apply_patches_second_of_three_fails :
  apply_patches_async (sys := Sim.system second_fails) ctx1 patched_repo patch_world
  = (Return 1,
     [EvRun OpPreparePatches ["git"; "checkout"; "-q"; "-B"; "patched-master"]
        "/work/meta" 0 "";
      EvRun (OpApply "/work/patches/a.patch" "p1")
        ["git"; "apply"; "--whitespace=nowarn"; "/work/patches/a.patch"]
        "/work/meta" 0 "";
      EvLog Info "Patch applied. (patch path: %s, repo: %s, patch entry: %s)";
      EvRun OpAdd ["git"; "add"; "-A"] "/work/meta" 0 "";
      EvRun OpCommit
        ["git"; "commit"; "-a"; "--author"; "kas <kas@example.com>"; "-m"; "msg"]
        "/work/meta" 0 "";
      EvRun (OpApply "/work/patches/b.patch" "p2")
        ["git"; "apply"; "--whitespace=nowarn"; "/work/patches/b.patch"]
        "/work/meta" 1 "error: patch failed";
      EvLog Error
        "Could not apply patch. Please fix repos and patches. (patch path: %s, repo: %s, patch entry: %s, vcs output: %s)"],
     patch_world).
Proof. vm_compute. reflexivity. Qed.

Lemma apply_patches_async_resolves_first_witness :
  exists c t,
    apply_patches_async (sys := Sim.system (Sim.always 0)) ctx1 orphan_repo patch_world
    = (c, t, patch_world)
    /\ failed c
    /\ runs t = [OpPreparePatches]
    /\ Forall (fun o => is_pipeline_op o = false) (runs t).
Proof.
  apply (apply_patches_async_resolves_first (sys := Sim.system (Sim.always 0))
           ctx1 orphan_repo patch_world
           ["git"; "checkout"; "-q"; "-B"; "patched-master"] 0 "" patch_world
           (mkPatch "p2" "nowhere" "b.patch")).
  - reflexivity.
  - reflexivity.
  - vm_compute. reflexivity.
  - apply list_elem_of_In. simpl. auto.
  - vm_compute. exact I.
Defined.

(** ** The series file *)

Section SeriesTheorem.
Context {Env : Type} {sys : System Env}.

(** C7: the loop over a series file.  Blank lines and lines that
    begin with ['#'] are skipped; each other line stands for the text
    before its first [" #"], right-trimmed, joined to the directory;
    the files are appended in line order; the first name that is
    empty ends the loop with [return 1], the first that names no file
    raises [FileNotFoundError].  The four lines of the specification
    give [foo.patch] and [bar.patch]. *)
Theorem series_file_parsing r patch dir env :
  (forall text ln acc,
      resolve_series r patch dir (PyStr.iter_lines text) ln acc env =
      match Series.resolve (fun p => path_isfile p env) dir text with
      | Series.Files fs =>
          (Next (acc ++ map (fun f => (f, patch_id patch)) fs), [], env)
      | Series.ParseError =>
          (Return 1,
           [EvLog Error
              "Could not parse patch file name from a 'series' file. (file: %s, line: %d, repo: %s, patch entry: %s)"],
           env)
      | Series.MissingFile p => (Raise (FileNotFoundError p), [], env)
      end)
  /\ (forall line,
         exists pre,
           Series.text_before " #" line pre
           /\ Series.right_trimmed pre (Series.name_of line))
  /\ Series.names series_text = ["foo.patch"; "bar.patch"]
  /\ (path_isfile (OsPath.join dir "foo.patch") env = true ->
      path_isfile (OsPath.join dir "bar.patch") env = true ->
      resolve_series r patch dir (PyStr.iter_lines series_text) 0 [] env
      = (Next [(OsPath.join dir "foo.patch", patch_id patch);
               (OsPath.join dir "bar.patch", patch_id patch)], [], env)).
Proof.
  assert (Hloop : forall text ln acc,
      resolve_series r patch dir (PyStr.iter_lines text) ln acc env =
      match Series.resolve (fun p => path_isfile p env) dir text with
      | Series.Files fs =>
          (Next (acc ++ map (fun f => (f, patch_id patch)) fs), [], env)
      | Series.ParseError =>
          (Return 1,
           [EvLog Error
              "Could not parse patch file name from a 'series' file. (file: %s, line: %d, repo: %s, patch entry: %s)"],
           env)
      | Series.MissingFile p => (Raise (FileNotFoundError p), [], env)
      end).
  { intros text ln acc. apply resolve_series_lines, iter_lines_is_line. }
  split; [exact Hloop|]. split; [|split].
  - intros line. exists (PyStr.split0 " #" line). split.
    + by apply split0_text_before.
    + apply rstrip_right_trimmed.
  - vm_compute. reflexivity.
  - intros Hfoo Hbar. rewrite Hloop.
    unfold Series.resolve, Series.resolve_lines.
    change (Series.names_of (PyStr.iter_lines series_text))
      with (Series.names series_text).
    replace (Series.names series_text) with ["foo.patch"; "bar.patch"]
      by (vm_compute; reflexivity).
    cbn [List.find map]. unfold Series.bad. rewrite Hfoo, Hbar.
    reflexivity.
Qed.

End SeriesTheorem.

Lemma series_file_parsing_witness :
  resolve_series (sys := Sim.system (Sim.always 0)) patched_repo
    (mkPatch "set" "patches" "set") "/work/patches/set"
    (PyStr.iter_lines series_text) 0 [] patch_world
  = (Next [(OsPath.join "/work/patches/set" "foo.patch", "set");
           (OsPath.join "/work/patches/set" "bar.patch", "set")], [], patch_world).
Proof.
  apply (series_file_parsing (sys := Sim.system (Sim.always 0)) patched_repo
           (mkPatch "set" "patches" "set") "/work/patches/set" patch_world).
  - vm_compute. reflexivity.
  - vm_compute. reflexivity.
Defined.

(** ** The factory *)

Lemma inb_elem_of x l : PyStr.inb x l = true <-> x ∈ l.
Proof.
  unfold PyStr.inb. rewrite existsb_exists. split.
  - intros (y & Hy & ->%String.eqb_eq). by apply list_elem_of_In.
  - intros Hx. exists x. split; [by apply list_elem_of_In|apply String.eqb_refl].
Qed.

Lemma dict_get_elem {V} (d : dict V) k v :
  NoDup (keys d) -> (k, v) ∈ d -> dict_get d k = Some v.
Proof.
  induction d as [|[k' v'] d IH]; [by intros _ ?%elem_of_nil|].
  cbn [keys map fst]. intros Hnd' [[= -> ->]|Hin]%elem_of_cons; simpl.
  - by rewrite String.eqb_refl.
  - inversion Hnd' as [|? ? Hk' Hnd]; subst.
    destruct (String.eqb k k') eqn:Heq; [|by apply IH].
    apply String.eqb_eq in Heq as ->. exfalso. apply Hk'.
    apply list_elem_of_In. apply list_elem_of_In in Hin.
    by apply (in_map fst) in Hin.
Qed.

Lemma filter_sublist {A} (f : A -> bool) l : sublist (List.filter f l) l.
Proof.
  induction l as [|x l IH]; simpl; [constructor|].
  destruct (f x); by constructor.
Qed.

Lemma rstrip_by_snoc p s c :
  p c = true -> PyStr.rstrip_by p (s +:+ String c "") = PyStr.rstrip_by p s.
Proof.
  intros Hc. induction s as [|d s IH]; simpl; [by rewrite Hc|]. by rewrite IH.
Qed.

Lemma rstrip_by_keep p s :
  (forall c, p c = true -> PyStr.endswith_char s c = false) ->
  PyStr.rstrip_by p s = s.
Proof.
  induction s as [|d s IH]; [done|]. intros Hend. cbn [PyStr.rstrip_by].
  destruct s as [|e s].
  - simpl. destruct (p d) eqn:Hd; [|done].
    apply Hend in Hd. simpl in Hd. by rewrite Ascii.eqb_refl in Hd.
  - rewrite IH; [done|]. intros c Hc. by apply Hend in Hc.
Qed.

Lemma join_empty_rstrip p :
  PyStr.endswith_char p "/" = false ->
  PyStr.endswith_char p "." = false ->
  PyStr.rstrip_chars (OsPath.sep +:+ ".") (OsPath.join p "") = p.
Proof.
  intros Hs Hd. unfold OsPath.join, PyStr.rstrip_chars.
  change (PyStr.startswith "" OsPath.sep) with false. cbn iota. rewrite Hs, orb_false_r.
  assert (Hkeep : PyStr.rstrip_by (PyStr.mem (OsPath.sep +:+ ".")) p = p).
  { apply rstrip_by_keep. intros c. simpl. rewrite orb_false_r.
    intros [->%Ascii.eqb_eq| ->%Ascii.eqb_eq]%orb_prop; done. }
  destruct (String.eqb p "") eqn:Hp.
  - apply String.eqb_eq in Hp as ->. done.
  - change (p +:+ OsPath.sep +:+ "") with (p +:+ String "/" "").
    rewrite rstrip_by_snoc by done. exact Hkeep.
Qed.

Section FactoryProps.
Context {Env : Type} {sys : System Env}.
Variable ctx : Context.

(** The loop over the patch entries ends with the list or exits. *)
Lemma factory_patches_no_return dflt pd ps acc (env : Env) repo t env' :
  factory_patches dflt pd ps acc env <> (Return repo, t, env').
Proof.
  revert acc. induction ps as [|p ps IH]; intros acc; [done|].
  cbn [factory_patches].
  destruct (dict_get pd p) as [[entry|]|]; [|apply IH..].
  destruct (match pc_repo entry with Some x => Some x | None => dflt end);
    [apply IH|done].
Qed.

(** The layers of the repository the factory returns. *)
Lemma factory_layers nm cfg defaults fb env repo t env' :
  factory ctx nm cfg defaults fb env = (Return repo, t, env') ->
  _layers repo =
  List.filter (layer_kept (default [("", PNone)] (rc_layers cfg)))
              (keys (default [("", PNone)] (rc_layers cfg))).
Proof.
  unfold factory, get_root_path. py_unfold. intros H.
  repeat (py_case_hyp; simplify_eq/=);
    solve [reflexivity | by eapply factory_patches_no_return in Heqp].
Qed.

(** C8: a configured layer is left out of the repository exactly
    when the lower-cased [str] of its value is one of the six
    switch-off words; the layers kept are in their declaration
    order. *)
Theorem factory_layer_filter nm cfg defaults fb env d repo t env' :
  rc_layers cfg = Some d ->
  NoDup (keys d) ->
  factory ctx nm cfg defaults fb env = (Return repo, t, env') ->
  (forall k v, (k, v) ∈ d ->
               (k ∉ _layers repo <-> PyStr.lower (py_str v) ∈ layer_off))
  /\ sublist (_layers repo) (keys d)
  /\ _layers repo =
     map fst (List.filter
                (fun kv => negb (PyStr.inb (PyStr.lower (py_str (snd kv))) layer_off)) d).
Proof.
  intros Hd Hnd Hf. apply factory_layers in Hf. rewrite Hd in Hf. change (default [("", PNone)] (Some d)) with d in Hf.
  rewrite Hf. split; [|split].
  - intros k v Hin.
    assert (In k (keys d)) as Hk.
    { apply list_elem_of_In in Hin. by apply (in_map fst) in Hin. }
    assert (layer_kept d k = negb (PyStr.inb (PyStr.lower (py_str v)) layer_off))
      as Hkept by (unfold layer_kept; by rewrite (dict_get_elem d k v Hnd Hin)).
    rewrite <- (inb_elem_of (PyStr.lower (py_str v)) layer_off). split.
    + intros Hnot. destruct (PyStr.inb _ layer_off) eqn:Hoff; [done|].
      exfalso. apply Hnot. apply list_elem_of_In, filter_In. split; [done|].
      rewrite Hkept. cbn [negb]. reflexivity.
    + intros Hoff Hin'. apply list_elem_of_In, filter_In in Hin' as [_ Hk'].
      rewrite Hkept, Hoff in Hk'. done.
  - apply filter_sublist.
  - clear Hf Hd. unfold keys in *. induction d as [|[k v] d IH]; [done|].
    cbn [map fst] in *. inversion Hnd as [|? ? Hk Hnd']; subst.
    cbn [List.filter]. unfold layer_kept at 1. cbn [dict_get]. rewrite String.eqb_refl.
    cbn [snd].
    assert (Hrest : List.filter (layer_kept ((k, v) :: d)) (map fst d)
                    = List.filter (layer_kept d) (map fst d)).
    { apply filter_ext_in. intros x Hx. unfold layer_kept. cbn [dict_get].
      destruct (String.eqb x k) eqn:Heq; [|done].
      apply String.eqb_eq in Heq as ->. exfalso. apply Hk. by apply list_elem_of_In. }
    rewrite Hrest, (IH Hnd').
    by destruct (negb _).
Qed.

(** C10: with no ['layers'] key the factory takes [{'': None}];
    [None] prints as ['None'], not one of the switch-off words, so
    the repository has the one layer [''], and its computed layer
    path is the path of the repository when that path does not end
    in ['/'] or ['.']. *)
Theorem factory_default_layer nm cfg defaults fb env repo t env' :
  rc_layers cfg = None ->
  factory ctx nm cfg defaults fb env = (Return repo, t, env') ->
  PyStr.lower (py_str PNone) = "none"
  /\ "none" ∉ layer_off
  /\ _layers repo = [""]
  /\ (PyStr.endswith_char (path repo) "/" = false ->
      PyStr.endswith_char (path repo) "." = false ->
      layers repo = [path repo]).
Proof.
  intros Hd Hf. apply factory_layers in Hf. rewrite Hd in Hf.
  split; [reflexivity|]. split.
  { rewrite <- (inb_elem_of "none" layer_off). by vm_compute. }
  split; [exact Hf|].
  intros Hs Hdot. unfold layers. rewrite Hf.
  change ([PyStr.rstrip_chars (OsPath.sep +:+ ".") (OsPath.join (path repo) "")]
          = [path repo]).
  by rewrite join_empty_rstrip.
Qed.

End FactoryProps.

Lemma factory_layer_filter_witness :
  (forall k v,
      (k, v) ∈ [("meta-a", PNone); ("meta-b", PStr "Disabled"); ("meta-c", PBool false);
                ("meta-d", PInt 1); ("meta-e", PInt 0)] ->
      (k ∉ ["meta-a"; "meta-d"] <-> PyStr.lower (py_str v) ∈ layer_off))
  /\ sublist ["meta-a"; "meta-d"] ["meta-a"; "meta-b"; "meta-c"; "meta-d"; "meta-e"]
  /\ ["meta-a"; "meta-d"] =
     map fst (List.filter
                (fun kv => negb (PyStr.inb (PyStr.lower (py_str (snd kv))) layer_off))
                [("meta-a", PNone); ("meta-b", PStr "Disabled"); ("meta-c", PBool false);
                 ("meta-d", PInt 1); ("meta-e", PInt 0)]).
Proof.
  apply (factory_layer_filter (sys := Sim.system (Sim.always 0)) ctx0 "meta"
           layered_config no_defaults "/src" empty_world
           [("meta-a", PNone); ("meta-b", PStr "Disabled"); ("meta-c", PBool false);
            ("meta-d", PInt 1); ("meta-e", PInt 0)]
           (mkRepo Git "meta" "https://host/meta" "/work/meta" (Some "master")
              ["meta-a"; "meta-d"] [] false)
           [] empty_world).
  - reflexivity.
  - apply (bool_decide_unpack _). vm_compute. exact I.
  - vm_compute. reflexivity.
Defined.

Lemma factory_default_layer_witness :
  PyStr.lower (py_str PNone) = "none"
  /\ "none" ∉ layer_off
  /\ [""] = [""]
  /\ (PyStr.endswith_char "/work/meta" "/" = false ->
      PyStr.endswith_char "/work/meta" "." = false ->
      layers (mkRepo Git "meta" "https://host/meta" "/work/meta" (Some "master")
                [""] [] false) = ["/work/meta"]).
Proof.
  apply (factory_default_layer (sys := Sim.system (Sim.always 0)) ctx0 "meta"
           plain_config no_defaults "/src" empty_world
           (mkRepo Git "meta" "https://host/meta" "/work/meta" (Some "master")
              [""] [] false)
           [] empty_world).
  - reflexivity.
  - vm_compute. reflexivity.
Defined.

(** ** The reference cache under cooperative scheduling *)

Section CoroutineProps.
Context {Env : Type} {sys : System Env} {environ : Environ}.
Variable ctx : Context.

(** Run alone, the three turns are the block of [fetch_async]. *)
Lemma turns_fetch_refdir r env :
  turns ctx 3 r Start env =
  match fetch_refdir ctx r env with
  | (c, t, env') => (Finished c, t, env')
  end.
Proof.
  unfold fetch_refdir. cbn [turns turn]. unfold refdir_enter.
  destruct (kas_repo_ref_dir ctx) as [refdir|]; [|reflexivity].
  destruct (ref_sdir ctx r) as [sdir|] eqn:Hsdir; [|reflexivity].
  py_unfold. destruct (path_exists sdir env); cbn [negb]; [reflexivity|].
  destruct (mkdtemp _ refdir _) as [tmpdir env2].
  destruct (clone_cmd r (Some tmpdir) true) as [cmd|e]; [|reflexivity].
  cbn [turn]. unfold refdir_await.
  destruct (exec cmd _ true true env2) as [[retc out] env3].
  cbn [turn]. unfold refdir_resume, refdir_after. rewrite Hsdir.
  change (default "" (Some sdir)) with sdir.
  py_unfold.
  destruct (retc =? 0); cbn [negb]; [|reflexivity].
  destruct (rename tmpdir sdir env3) as [env4|]; [|reflexivity].
  destruct version_lt_38; reflexivity.
Qed.

End CoroutineProps.

(** Names of directory entries. *)

Lemma mem_append a b c : PyStr.mem (a +:+ b) c = (PyStr.mem a c || PyStr.mem b c)%bool.
Proof. induction a as [|d a IH]; simpl; [done|]. by rewrite IH, orb_assoc. Qed.

Lemma mem_replace_slash s :
  PyStr.mem (PyStr.replace "*" "." (PyStr.replace "/" "." s)) "/" = false.
Proof.
  induction s as [|c s IH]; [done|].
  cbn [PyStr.replace PyStr.mem]. rewrite IH, orb_false_r.
  destruct (Ascii.eqb c "/") eqn:Hc.
  - by vm_compute.
  - destruct (Ascii.eqb c "*") eqn:Hs; [by vm_compute|].
    rewrite Ascii.eqb_sym. exact Hc.
Qed.

Lemma qualified_name_no_slash {Env} {sys : System Env} r :
  PyStr.mem (qualified_name r) "/" = false.
Proof. unfold qualified_name. destruct (urlparse (url r)). apply mem_replace_slash. Qed.

Lemma name_not_abs n : PyStr.mem n "/" = false -> PyStr.startswith n OsPath.sep = false.
Proof.
  destruct n as [|c n]; [done|]. cbn [PyStr.mem]. intros [Hc _]%orb_false_elim.
  unfold PyStr.startswith, OsPath.sep. cbn [prefix].
  destruct (ascii_dec "/" c) as [<-|?]; [|done].
  by rewrite Ascii.eqb_refl in Hc.
Qed.

Lemma join_name_inj rd a b :
  PyStr.mem a "/" = false -> PyStr.mem b "/" = false ->
  OsPath.join rd a = OsPath.join rd b -> a = b.
Proof.
  intros Ha Hb. unfold OsPath.join.
  rewrite (name_not_abs a Ha), (name_not_abs b Hb).
  destruct (_ || _)%bool; intros H.
  - by apply (inj (String.append rd)) in H.
  - apply (inj (String.append rd)) in H. by apply (inj (String.append OsPath.sep)) in H.
Qed.

Lemma length_append a b :
  String.length (a +:+ b) = (String.length a + String.length b)%nat.
Proof. induction a; simpl; [done|]. by rewrite IHa. Qed.

Lemma temp_name_fresh qn sfx : (qn +:+ ".") +:+ sfx <> qn.
Proof.
  intros H. apply (f_equal String.length) in H.
  rewrite !length_append in H. simpl in H. lia.
Qed.

Lemma is_name_spec n : is_name n = true <-> n <> "" /\ PyStr.mem n "/" = false.
Proof.
  unfold is_name. rewrite andb_true_iff, !negb_true_iff, String.eqb_neq. done.
Qed.

Lemma is_name_temp qn sfx :
  PyStr.mem qn "/" = false -> PyStr.mem sfx "/" = false ->
  is_name ((qn +:+ ".") +:+ sfx) = true.
Proof.
  intros Hq Hs. apply is_name_spec. split.
  - intros H. apply (f_equal String.length) in H. rewrite !length_append in H.
    simpl in H. lia.
  - by rewrite !mem_append, Hq, Hs.
Qed.

Lemma clone_cmd_createref {environ : Environ} r tmp :
  exists cmd, clone_cmd r (Some tmp) true = Ok cmd.
Proof. unfold clone_cmd. destruct (kind r); simpl; eauto. Qed.

Section Race.
Context {Env : Type} {sys : System Env} {environ : Environ}.
Variables (ctx : Context) (ra rb : Repo) (rd : string).
Hypothesis Hrd : kas_repo_ref_dir ctx = Some rd.
Hypothesis Hrd_ne : rd <> "".
Hypothesis Hqn : qualified_name rb = qualified_name ra.
Hypothesis Hqn_ne : qualified_name ra <> "".
Hypothesis Hroot : CacheRoot rd.
Hypothesis Hclone : forall r tmp cmd env,
  r = ra \/ r = rb ->
  clone_cmd r (Some tmp) true = Ok cmd ->
  fst (fst (exec cmd (kas_work_dir ctx) true true env)) = 0.

Local Abbreviation qn := (qualified_name ra).
Local Abbreviation sdir := (OsPath.join rd (qualified_name ra)).
Local Abbreviation entry := (OsPath.join rd).

Local Abbreviation Temp := (temp rd (qualified_name ra)).
Local Abbreviation Good := (good rd (qualified_name ra)).
Local Abbreviation Made := (made rd (qualified_name ra)).
Local Abbreviation inv := (race_inv rd (qualified_name ra) ra rb).

Lemma qn_name : is_name qn = true.
Proof. apply is_name_spec. split; [done|apply qualified_name_no_slash]. Qed.

Lemma ref_sdir_eq r : r = ra \/ r = rb -> ref_sdir ctx r = Some sdir.
Proof.
  intros Hr. unfold ref_sdir. rewrite Hrd.
  assert (truthy (Some rd) = true) as ->
    by (simpl; by apply negb_true_iff, String.eqb_neq).
  destruct Hr as [-> | ->]; [done|]. by rewrite Hqn.
Qed.

Lemma prefix_eq r : r = ra \/ r = rb -> qualified_name r = qn.
Proof. intros [-> | ->]; [done|exact Hqn]. Qed.

Lemma entry_inj a b :
  is_name a = true -> is_name b = true -> entry a = entry b -> a = b.
Proof.
  intros [_ Ha]%is_name_spec [_ Hb]%is_name_spec. by apply join_name_inj.
Qed.

(** The other coroutine keeps what it has when the entries that
    exist stay. *)
Lemma good_mono r k env env' :
  Good r k env ->
  (forall n, is_name n = true -> path_exists (entry n) env = true ->
             n = qn \/ held k = Some (entry n) ->
             path_exists (entry n) env' = true) ->
  Good r k env'.
Proof.
  intros Hg Hkeep. destruct k as [|tmp cmd|tmp retc out|c]; simpl in *; [done| | |].
  - destruct Hg as ((nm & Hnm & Hne & ->) & Hex & Hcmd). split; [by exists nm|].
    split; [|done]. apply Hkeep; auto.
  - destruct Hg as ((nm & Hnm & Hne & ->) & Hex & Hrc). split; [by exists nm|].
    split; [|done]. apply Hkeep; auto.
  - destruct Hg as [-> Hex]. split; [done|]. apply (Hkeep qn); auto using qn_name.
Qed.

Lemma good_held r k env tmp :
  Good r k env -> held k = Some tmp -> Temp tmp /\ path_exists tmp env = true.
Proof.
  destruct k as [|t c|t rc o|c]; simpl; intros Hg [= <-]; tauto.
Qed.

(** One turn of a coroutine keeps the invariant of the pair. *)
Lemma turn_inv r ro k ko t env k' t' env' :
  r = ra \/ r = rb ->
  turn ctx r k env = (k', t', env') ->
  Good r k env -> Good ro ko env ->
  (forall ta tb, held k = Some ta -> held ko = Some tb -> ta <> tb) ->
  Made k ko t env ->
  Good r k' env' /\ Good ro ko env'
  /\ (forall ta tb, held k' = Some ta -> held ko = Some tb -> ta <> tb)
  /\ Made k' ko (t ++ t') env'.
Proof.
  intros Hr Hturn Hg Hgo Hdist Hmade.
  destruct k as [|tmp cmd|tmp retc out|c]; cbn [turn] in Hturn.
  - (* the first turn *)
    unfold refdir_enter in Hturn. rewrite Hrd, (ref_sdir_eq r Hr) in Hturn.
    destruct (path_exists sdir env) eqn:Hsd; cbn [negb] in Hturn.
    { injection Hturn as <- <- <-. rewrite app_nil_r.
      split; [by simpl|]. split; [exact Hgo|]. split; [intros ta tb [=]|].
      intros tmp' Hin. destruct (Hmade tmp' Hin) as [Ht' [Hh|[Hh|Hex]]]; by auto. }
    destruct (mkdtemp _ rd _) as [tmp env2] eqn:Hmk.
    rewrite (prefix_eq r Hr) in Hmk.
    assert (is_name (qn +:+ ".") = true) as Hpre.
    { apply is_name_spec. split; [by destruct qn|].
      rewrite mem_append. by rewrite qualified_name_no_slash. }
    destruct (root_mkdtemp rd Hroot _ _ _ _ Hpre Hmk)
      as (sfx & Hsfx & Htmp & Hfresh & Hnew & Hframe).
    set (nm := (qn +:+ ".") +:+ sfx) in *.
    assert (is_name nm = true) as Hnm
      by (apply is_name_temp; [apply qualified_name_no_slash|done]).
    assert (nm <> qn) as Hnmq by apply temp_name_fresh.
    assert (Temp tmp) as Htemp by (exists nm; done).
    rewrite Htmp in Hfresh.
    rewrite (root_makedirs rd Hroot nm env Hnm) in Hfresh.
    assert (Hkeep : forall n, is_name n = true -> path_exists (entry n) env = true ->
                              path_exists (entry n) env2 = true).
    { intros n Hn Hex. assert (n <> nm) by (intros ->; congruence).
       rewrite (Hframe n Hn) by done.
      by rewrite (root_makedirs rd Hroot n env Hn). }
    assert (Hgone : forall n, is_name n = true -> n <> nm ->
                              path_exists (entry n) env = false ->
                              path_exists (entry n) env2 = false).
    { intros n Hn Hne Hex.  rewrite (Hframe n Hn) by done.
      by rewrite (root_makedirs rd Hroot n env Hn). }
    destruct (clone_cmd_createref r tmp) as [cmd Hcmd]. rewrite Hcmd in Hturn.
    injection Hturn as <- <- <-.
    split; [by simpl|]. split; [|split].
    + apply (good_mono ro ko env); [done|]. intros n Hn Hex _. by apply Hkeep.
    + intros ta tb [= <-] Htb ->.
      destruct (good_held _ _ _ _ Hgo Htb) as [_ Hex].
      rewrite Htmp in Hex.  congruence.
    + intros tmp' [Hin|Hin]%elem_of_app.
      * destruct (Hmade tmp' Hin) as [Ht' [Hh|[Hh|Hex]]]; [done|by auto|].
        split; [done|]. destruct Ht' as (nm' & Hnm' & Hne' & ->).
        destruct (decide (nm' = nm)) as [->|Hnn].
        { left. simpl. by rewrite Htmp. }
        right; right. by apply Hgone.
      * apply elem_of_cons in Hin as [[=]|Hin].
        apply list_elem_of_singleton in Hin as [= ->]. split; [done|]. by left.
  - (* the command has run *)
    unfold refdir_await in Hturn.
    destruct Hg as (Htemp & Hex & Hcmd).
    pose proof (Hclone r tmp cmd env Hr Hcmd) as Hzero.
    assert (Hframe : forall n, is_name n = true ->
              path_exists (entry n) (snd (exec cmd (kas_work_dir ctx) true true env))
              = path_exists (entry n) env)
      by (intros n Hn; by apply (root_exec rd Hroot)).
    destruct (exec cmd (kas_work_dir ctx) true true env) as [[retc out] env1].
    simpl in Hzero, Hframe. subst retc. injection Hturn as <- <- <-.
    destruct Htemp as (nm & Hnm & Hne & ->).
    split; [|split; [|split]].
    + simpl. split; [by exists nm|]. split; [|done]. by rewrite Hframe.
    + apply (good_mono ro ko env); [done|]. intros n Hn Hexn _. by rewrite Hframe.
    + exact Hdist.
    + intros tmp' [Hin|Hin]%elem_of_app.
      * destruct (Hmade tmp' Hin) as [Ht' [Hh|[Hh|Hgone]]]; [by auto..|].
        split; [done|]. right; right.
        destruct Ht' as (nm' & Hnm' & _ & ->). by rewrite Hframe.
      * apply list_elem_of_singleton in Hin. done.
  - (* after the command *)
    unfold refdir_resume, refdir_after in Hturn.
    destruct Hg as ((nm & Hnm & Hne & ->) & Hex & ->).
    rewrite (ref_sdir_eq r Hr) in Hturn.
    change (default "" (Some sdir)) with sdir in Hturn.
    cbn [Z.eqb negb] in Hturn. py_unfold.
    assert (Hend : forall env3 t3,
               path_exists sdir env3 = true ->
               (forall n, is_name n = true -> n <> nm -> n <> qn ->
                          path_exists (entry n) env3 = path_exists (entry n) env) ->
               (Finished (Next tt), t3, rmtree (entry nm) env3) = (k', t', env') ->
               (forall tmp', EvMkdtemp tmp' ∉ t3) ->
               Good r k' env' /\ Good ro ko env'
               /\ (forall ta tb, held k' = Some ta -> held ko = Some tb -> ta <> tb)
               /\ Made k' ko (t ++ t') env').
    { intros env3 t3 Hsd Hfr [= <- <- <-] Hno.
      destruct (root_rmtree rd Hroot nm env3 Hnm) as [Hrm Hrmf].
      assert (Hsd' : path_exists sdir (rmtree (entry nm) env3) = true).
      {  rewrite (Hrmf qn qn_name) by done. exact Hsd. }
      split; [by simpl|]. split; [|split].
      - apply (good_mono ro ko env); [done|].
        intros n Hn Hexn [->|Hheld]; [exact Hsd'|].
        destruct (good_held _ _ _ _ Hgo Hheld) as [(nm' & Hnm' & Hne' & Heq) _].
        apply entry_inj in Heq; [|done..]. subst nm'.
        assert (n <> nm) as Hnn.
        { intros ->. by apply (Hdist (entry nm) (entry nm)). }
         rewrite (Hrmf n Hn Hnn).
        by rewrite Hfr.
      - intros ta tb [=].
      - intros tmp' [Hin|Hin]%elem_of_app; [|by apply Hno in Hin].
        destruct (Hmade tmp' Hin) as [Ht' [Hh|[Hh|Hgone]]].
        + injection Hh as <-. split; [done|]. right; right. exact Hrm.
        + by auto.
        + split; [done|]. right; right.
          destruct Ht' as (nm' & Hnm' & Hne' & ->).
          assert (nm' <> nm) as Hnn by (intros ->; congruence).
           rewrite (Hrmf nm' Hnm' Hnn).
          by rewrite Hfr. }
    destruct (rename (entry nm) sdir env) as [env1|] eqn:Hren.
    + destruct (root_rename_done rd Hroot nm qn env env1 Hnm qn_name Hne Hren)
        as (Hdst & Hsrc & Hfr).
      destruct version_lt_38.
      * destruct (root_recreate rd Hroot nm env1 Hnm) as [_ Hrec].
        eapply (Hend (makedirs (entry nm) env1)); [| |exact Hturn|].
        --  rewrite (Hrec qn qn_name) by done. exact Hdst.
        -- intros n Hn Hnn Hnq.  rewrite (Hrec n Hn Hnn).
           by apply Hfr.
        -- intros tmp' Hin. set_solver.
      * eapply (Hend env1); [exact Hdst| |exact Hturn|].
        -- intros n Hn Hnn Hnq. by apply Hfr.
        -- intros tmp' Hin. set_solver.
    + cbn [is_OSError] in Hturn.
      eapply (Hend env); [| |exact Hturn|].
      * apply (root_rename_failed rd Hroot nm qn env Hnm qn_name Hren Hex).
      * done.
      * intros tmp' Hin. set_solver.
  - (* nothing is left to do *)
    injection Hturn as <- <- <-. rewrite app_nil_r. done.
Qed.

Lemma sched_turn_inv first cf : inv cf -> inv (sched_turn ctx ra rb first cf).
Proof.
  destruct cf as [[[ka kb] t] env]. intros (Ha & Hb & Hd & Hm).
  unfold sched_turn. destruct first.
  - destruct (turn ctx ra ka env) as [[ka' t'] env'] eqn:Hturn.
    exact (turn_inv ra rb ka kb t env ka' t' env' (or_introl eq_refl) Hturn Ha Hb Hd Hm).
  - destruct (turn ctx rb kb env) as [[kb' t'] env'] eqn:Hturn.
    assert (Hd' : forall ta tb, held kb = Some ta -> held ka = Some tb -> ta <> tb)
      by (intros ta tb H1 H2 Heq; by apply (Hd tb ta)).
    assert (Hm' : Made kb ka t env).
    { intros tmp Hin. destruct (Hm tmp Hin) as [Ht Hor]. split; [done|tauto]. }
    destruct (turn_inv rb ra kb ka t env kb' t' env' (or_intror eq_refl)
                Hturn Hb Ha Hd' Hm') as (Hb' & Ha' & Hd'' & Hm'').
    split; [done|]. split; [done|]. split.
    + intros ta tb H1 H2 Heq. by apply (Hd'' tb ta).
    + intros tmp Hin. destruct (Hm'' tmp Hin) as [Ht Hor]. split; [done|tauto].
Qed.

Lemma run_schedule_inv sched cf : inv cf -> inv (run_schedule ctx ra rb sched cf).
Proof.
  revert cf. induction sched as [|first sched IH]; intros cf Hcf; [done|].
  cbn [run_schedule fold_left]. apply IH. by apply sched_turn_inv.
Qed.

(** A turn takes a coroutine one step further. *)
Lemma turn_progress r k env :
  (Nat.min 3 (S (progress k)) <= progress (fst (fst (turn ctx r k env))))%nat.
Proof.
  destruct k as [|tmp cmd|tmp retc out|c]; cbn [turn].
  - unfold refdir_enter.
    destruct (kas_repo_ref_dir ctx); [|simpl; lia].
    destruct (ref_sdir ctx r); [|simpl; lia].
    destruct (negb _); [|simpl; lia].
    destruct (mkdtemp _ _ _). destruct (clone_cmd _ _ _); simpl; lia.
  - unfold refdir_await. destruct (exec _ _ _ _ _) as [[? ?] ?]. simpl. lia.
  - unfold refdir_resume. destruct (refdir_after _ _ _ _ _) as [[? ?] ?]. simpl. lia.
  - simpl. lia.
Qed.

Lemma run_schedule_progress sched ka kb t env :
  match run_schedule ctx ra rb sched (ka, kb, t, env) with
  | (ka', kb', _, _) =>
      (Nat.min 3 (progress ka + turns_of true sched) <= progress ka')%nat
      /\ (Nat.min 3 (progress kb + turns_of false sched) <= progress kb')%nat
  end.
Proof.
  revert ka kb t env. induction sched as [|first sched IH]; intros ka kb t env.
  { unfold run_schedule, turns_of. cbn [fold_left List.filter List.length]. lia. }
  cbn [run_schedule fold_left]. unfold turns_of. cbn [List.filter].
  destruct first; cbn [sched_turn Bool.eqb List.length].
  - pose proof (turn_progress ra ka env) as Hp.
    destruct (turn ctx ra ka env) as [[ka1 t1] env1]. cbn [fst] in Hp.
    specialize (IH ka1 kb (t ++ t1) env1). unfold run_schedule, turns_of in IH.
    destruct (fold_left _ sched _) as [[[ka' kb'] t'] env'].
    cbn [List.length]. lia.
  - pose proof (turn_progress rb kb env) as Hp.
    destruct (turn ctx rb kb env) as [[kb1 t1] env1]. cbn [fst] in Hp.
    specialize (IH ka kb1 (t ++ t1) env1). unfold run_schedule, turns_of in IH.
    destruct (fold_left _ sched _) as [[[ka' kb'] t'] env'].
    cbn [List.length]. lia.
Qed.

Lemma progress_finished k : (3 <= progress k)%nat -> is_finished k = true.
Proof. destruct k; simpl; [lia..|done]. Qed.


End Race.

(** ** The simulated world keeps the laws of a cache root *)

Lemma bool_eq_iff (a b : bool) : (a = true <-> b = true) -> a = b.
Proof. destruct a, b; intros [H1 H2]; try done; [by rewrite H1|by rewrite H2]. Qed.

Lemma inb_In x l : PyStr.inb x l = true <-> In x l.
Proof.
  unfold PyStr.inb. rewrite existsb_exists. split.
  - intros (y & Hy & ->%String.eqb_eq). done.
  - intros Hx. exists x. by rewrite String.eqb_refl.
Qed.

Lemma has_path_In p w :
  Sim.has_path p w = true <-> In p (Sim.dirs w ++ map fst (Sim.files w)).
Proof.
  unfold Sim.has_path, Sim.has_file, Sim.has_dir.
  rewrite orb_true_iff, in_app_iff, inb_In, existsb_exists, in_map_iff. split.
  - intros [(f & Hf & ->%String.eqb_eq)|Hd]; [right; by exists f|by left].
  - intros [Hd|(f & <- & Hf)]; [by right|left]. exists f. by rewrite String.eqb_refl.
Qed.

Lemma has_path_add_dir p q w :
  Sim.has_path q (Sim.add_dir p w) = true <-> q = p \/ Sim.has_path q w = true.
Proof.
  unfold Sim.add_dir. destruct (Sim.has_path p w) eqn:Hp.
  - split; [by right|]. intros [->|H]; done.
  - rewrite !has_path_In. cbn [Sim.dirs Sim.files]. rewrite !in_app_iff.
    cbn [In]. split; [intros [[H|[->|[]]]|H]|intros [->|[H|H]]]; auto.
Qed.

Lemma has_path_del_dir p q w :
  Sim.has_path q (Sim.del_dir p w) = true <-> q <> p /\ Sim.has_path q w = true.
Proof.
  rewrite !has_path_In. unfold Sim.del_dir. cbn [Sim.dirs Sim.files].
  rewrite !in_app_iff, !in_map_iff, filter_In, negb_true_iff, String.eqb_neq.
  setoid_rewrite filter_In. setoid_rewrite negb_true_iff.
  setoid_rewrite String.eqb_neq. split.
  - intros [[Hd Hne]|(f & <- & Hf & Hne)]; (split; [done|]); [by left|right; by exists f].
  - intros [Hne [Hd|(f & <- & Hf)]]; [by left|right; by exists f].
Qed.

Lemma length_filler n : String.length (Sim.filler n) = n.
Proof. induction n; simpl; [done|by rewrite IHn]. Qed.

Lemma mem_filler n : PyStr.mem (Sim.filler n) "/" = false.
Proof. induction n; [done|]. cbn [Sim.filler PyStr.mem]. by rewrite IHn. Qed.

Lemma length_join rd n : (String.length n <= String.length (OsPath.join rd n))%nat.
Proof.
  unfold OsPath.join. destruct (PyStr.startswith _ _); [done|].
  destruct (_ || _)%bool; rewrite !length_append; lia.
Qed.

Lemma longest_bound p w :
  Sim.has_path p w = true -> (String.length p <= Sim.longest w)%nat.
Proof.
  rewrite has_path_In. unfold Sim.longest.
  induction (Sim.dirs w ++ map fst (Sim.files w)) as [|x l IH]; [done|].
  cbn [In fold_right]. intros [->|H]; [lia|]. specialize (IH H). lia.
Qed.

Lemma new_tmp_fresh pre rd w :
  Sim.has_path (fst (Sim.new_tmp pre rd w)) w = false.
Proof.
  destruct (Sim.has_path _ w) eqn:Hp; [|done].
  apply longest_bound in Hp. cbn [Sim.new_tmp fst] in Hp.
  pose proof (length_join rd (pre +:+ Sim.filler (S (Sim.longest w)))) as Hl.
  rewrite length_append, length_filler in Hl. lia.
Qed.

Lemma has_path_new_tmp pre rd q w :
  Sim.has_path q (snd (Sim.new_tmp pre rd w)) = true
  <-> q = fst (Sim.new_tmp pre rd w) \/ Sim.has_path q w = true.
Proof.
  rewrite !has_path_In. cbn [Sim.new_tmp fst snd Sim.dirs Sim.files].
  rewrite !in_app_iff. cbn [In].
  split; [intros [[H|[->|[]]]|H]|intros [->|[H|H]]]; auto.
Qed.

Lemma has_path_move_dir src dst q w w' :
  Sim.move_dir src dst w = Some w' ->
  Sim.has_path q w' = true
  <-> (q = dst /\ Sim.has_path src w = true) \/ (q <> src /\ Sim.has_path q w = true).
Proof.
  unfold Sim.move_dir. destruct (_ || _)%bool eqn:Hc; [done|]. intros [= <-].
  apply orb_false_elim in Hc as [Hdst Hsrc]. apply negb_false_iff in Hsrc.
  rewrite Hsrc. rewrite has_path_In in Hsrc. rewrite !has_path_In.
  cbn [Sim.dirs Sim.files]. rewrite map_map, !in_app_iff, !in_map_iff in *. split.
  - intros [(d & Hq & Hd)|(f & Hq & Hf)].
    + destruct (String.eqb_spec d src) as [Heq|Hne]; [left; by subst q|].
      subst q. right. split; [done|by left].
    + destruct (String.eqb_spec (fst f) src) as [Heq|Hne].
      * left. by subst q.
      * right. subst q. split; [done|]. right. by exists f.
  - intros [[-> _]|[Hne [Hd|(f & <- & Hf)]]].
    + destruct Hsrc as [Hd|(f & <- & Hf)].
      * left. exists src. by rewrite String.eqb_refl.
      * right. exists f. by rewrite String.eqb_refl.
    + left. exists q. split; [|done].
      destruct (String.eqb_spec q src); done.
    + right. exists f. split; [|done].
      destruct (String.eqb_spec (fst f) src); done.
Qed.

Lemma join_name_longer rd n : is_name n = true -> OsPath.join rd n <> rd.
Proof.
  intros [Hne Hm]%is_name_spec Heq. apply (f_equal String.length) in Heq.
  unfold OsPath.join in Heq. rewrite (name_not_abs n Hm) in Heq.
  destruct n; [done|].
  destruct (_ || _)%bool; rewrite !length_append in Heq; simpl in Heq; lia.
Qed.

(** The simulated file system, with commands that leave it alone. *)
Lemma sim_cache_root retc rd : @CacheRoot Sim.world (Sim.system (Sim.always retc)) rd.
Proof.
  split; cbn [path_exists makedirs mkdtemp exec rename rmtree Sim.system].
  - intros n env Hn. apply bool_eq_iff. rewrite has_path_add_dir.
    split; [intros [H|H]; [by apply join_name_longer in H|done]|by right].
  - intros pre env tmp env' Hpre Hmk.
    exists (Sim.filler (S (Sim.longest env))).
    assert (tmp = fst (Sim.new_tmp pre rd env)) as Htmp by by rewrite Hmk.
    assert (env' = snd (Sim.new_tmp pre rd env)) as Henv by by rewrite Hmk.
    split; [apply mem_filler|]. split; [by rewrite Htmp|].
    split; [rewrite Htmp; apply new_tmp_fresh|].
    split; [rewrite Henv; apply has_path_new_tmp; by left|].
    intros n Hn Hne. apply bool_eq_iff. rewrite Henv, has_path_new_tmp.
    split; [intros [H|H]; [|done]|by right].
    cbn [Sim.new_tmp fst] in H. apply join_name_inj in H; [done|..].
    + by apply is_name_spec in Hn as [_ ?].
    + apply is_name_spec in Hpre as [_ ?]. by rewrite mem_append, mem_filler, orb_false_r.
  - done.
  - intros a b env env' Ha Hb Hab Hmv.
    pose proof (fun q => has_path_move_dir _ _ q _ _ Hmv) as Hq.
    assert (Sim.has_path (OsPath.join rd a) env = true) as Hsrc.
    { unfold Sim.move_dir in Hmv. destruct (_ || _)%bool eqn:Hc; [done|].
      apply orb_false_elim in Hc as [_ Hs]. by apply negb_false_iff in Hs. }
    assert (OsPath.join rd b <> OsPath.join rd a) as Hne.
    { intros H. apply Hab. symmetry.
      apply (join_name_inj rd b a); [by apply is_name_spec in Hb as [_ ?]|
                                      by apply is_name_spec in Ha as [_ ?]|done]. }
    split; [apply Hq; by left|]. split.
    + destruct (Sim.has_path (OsPath.join rd a) env') eqn:H; [|done].
      apply Hq in H as [[H _]|[H _]]; [by symmetry in H|done].
    + intros n Hn Hna Hnb. apply bool_eq_iff. rewrite Hq. split.
      * intros [[H _]|[_ H]]; [|done]. apply join_name_inj in H; [done|..].
        -- by apply is_name_spec in Hn as [_ ?].
        -- by apply is_name_spec in Hb as [_ ?].
      * intros H. right. split; [|done]. intros H'.
        apply join_name_inj in H'; [done|..].
        -- by apply is_name_spec in Hn as [_ ?].
        -- by apply is_name_spec in Ha as [_ ?].
  - intros a b env Ha Hb Hmv Hsrc. unfold Sim.move_dir in Hmv.
    destruct (Sim.has_path (OsPath.join rd b) env); [done|].
    rewrite Hsrc in Hmv. done.
  - intros a env Ha. split; [apply has_path_add_dir; by left|].
    intros n Hn Hne. apply bool_eq_iff. rewrite has_path_add_dir.
    split; [intros [H|H]; [|done]|by right].
    apply join_name_inj in H; [done|..].
    + by apply is_name_spec in Hn as [_ ?].
    + by apply is_name_spec in Ha as [_ ?].
  - intros a env Ha. split.
    + destruct (Sim.has_path _ (Sim.del_dir _ _)) eqn:H; [|done].
      by apply has_path_del_dir in H as [? _].
    + intros n Hn Hne. apply bool_eq_iff. rewrite has_path_del_dir.
      split; [by intros [_ ?]|]. intros H. split; [|done]. intros H'.
      apply join_name_inj in H'; [done|..].
      * by apply is_name_spec in Hn as [_ ?].
      * by apply is_name_spec in Ha as [_ ?].
Qed.

